(** * GPU temperature watchdog (gpu_watchdog.py): model and properties

    The watchdog samples the GPU temperature through [nvidia-smi], and
    when the reading reaches the configured threshold it looks for T-Rex
    miner processes and drives them through an interrupt / terminate /
    kill sequence.

    The Python code is embedded shallowly.  The operating system (sensor
    tool, process table, signals, the clock) is an explicit world that
    every operation transforms; what the program does to it, and what it
    logs or prints, is recorded in a trace of events.  Exceptions are
    values.  Floats are modelled by the exact rational they denote
    (rounding to binary64 is not modelled), strings are ASCII. *)

From Stdlib Require Import List String Ascii Bool ZArith QArith Lia.
Import ListNotations.

Local Open Scope string_scope.
Local Open Scope list_scope.
Local Open Scope Z_scope.

(** ** Python string operations used by the program *)

(** [str.isspace] on one ASCII character: tab, LF, VT, FF, CR, the four
    separators 0x1c-0x1f, and the space.  Python counts further code
    points as white space (0x85, 0xa0, ...); the definition agrees with
    it on seven-bit characters only. *)
Definition is_space (c : ascii) : bool :=
  let n := nat_of_ascii c in
  ((9 <=? n)%nat && (n <=? 13)%nat)
  || ((28 <=? n)%nat && (n <=? 31)%nat)
  || (n =? 32)%nat.

Fixpoint lstrip (s : string) : string :=
  match s with
  | String c s' => if is_space c then lstrip s' else s
  | EmptyString => EmptyString
  end.

Fixpoint rstrip (s : string) : string :=
  match s with
  | String c s' =>
      match rstrip s' with
      | EmptyString => if is_space c then EmptyString else String c EmptyString
      | r => String c r
      end
  | EmptyString => EmptyString
  end.

(** [s.strip()] *)
Definition strip (s : string) : string := rstrip (lstrip s).

(** [s.split(sep)] for a one-character separator: never an empty list. *)
Fixpoint split (sep : ascii) (s : string) : list string :=
  match s with
  | EmptyString => [EmptyString]
  | String c s' =>
      if Ascii.eqb c sep then EmptyString :: split sep s'
      else match split sep s' with
           | w :: ws => String c w :: ws
           | [] => [String c EmptyString]
           end
  end.

Definition newline : ascii := ascii_of_nat 10.

(** [c.lower()] on ASCII: only 'A'..'Z' move. *)
Definition lower_char (c : ascii) : ascii :=
  let n := nat_of_ascii c in
  if ((65 <=? n)%nat && (n <=? 90)%nat)%bool then ascii_of_nat (n + 32) else c.

Fixpoint lower (s : string) : string :=
  match s with
  | String c s' => String (lower_char c) (lower s')
  | EmptyString => EmptyString
  end.

(** [str.isdigit] on one ASCII character: '0' to '9'.  Python counts
    further code points as digits (the superscripts 0xb2, 0xb3, 0xb9,
    ...), which [float] then refuses; the definition agrees with it on
    seven-bit characters only. *)
Definition is_digit (c : ascii) : bool :=
  let n := nat_of_ascii c in ((48 <=? n)%nat && (n <=? 57)%nat)%bool.

Fixpoint all_digits (s : string) : bool :=
  match s with
  | String c s' => is_digit c && all_digits s'
  | EmptyString => true
  end.

(** [s.isdigit()]: at least one character, and all of them digits. *)
Definition isdigit (s : string) : bool :=
  match s with
  | EmptyString => false
  | _ => all_digits s
  end.

(** [s.replace('.', '')] *)
Fixpoint remove_dots (s : string) : string :=
  match s with
  | String c s' => if Ascii.eqb c "."%char then remove_dots s' else String c (remove_dots s')
  | EmptyString => EmptyString
  end.

(** Truth value of a [str]: non-empty. *)
Definition str_truthy (s : string) : bool :=
  match s with EmptyString => false | _ => true end.

Fixpoint starts_with (p s : string) : bool :=
  match p, s with
  | EmptyString, _ => true
  | String a p', String b s' => Ascii.eqb a b && starts_with p' s'
  | String _ _, EmptyString => false
  end.

(** [needle in hay] on strings: substring containment. *)
Fixpoint contains (needle hay : string) : bool :=
  starts_with needle hay
  || match hay with
     | String _ hay' => contains needle hay'
     | EmptyString => false
     end.

(** [' '.join(parts)] *)
Fixpoint join_spaces (parts : list string) : string :=
  match parts with
  | [] => EmptyString
  | [p] => p
  | p :: rest => (p ++ " " ++ join_spaces rest)%string
  end.

(** ** [float(s)] on unsigned decimal literals

    The caller only passes strings made of digits and dots; on those,
    Python's [float] accepts exactly the ones with at most one dot and at
    least one digit, and raises [ValueError] on the others ([None]
    here).  Signs, exponents and the like cannot get past the caller's
    guard and are not modelled. *)

Fixpoint span_digits (s : string) : string * string :=
  match s with
  | String c s' =>
      if is_digit c then let (d, r) := span_digits s' in (String c d, r)
      else (EmptyString, s)
  | EmptyString => (EmptyString, EmptyString)
  end.

Definition digit_value (c : ascii) : Z := Z.of_nat (nat_of_ascii c) - 48.

Fixpoint digits_value (acc : Z) (s : string) : Z :=
  match s with
  | String c s' => digits_value (10 * acc + digit_value c) s'
  | EmptyString => acc
  end.

Fixpoint pow10 (n : nat) : positive :=
  match n with
  | O => 1%positive
  | S k => (10 * pow10 k)%positive
  end.

(** The value of [int_part.frac_part], as a reduced fraction. *)
Definition decimal (int_part frac_part : string) : Q :=
  Qred (Qmake (digits_value 0 (int_part ++ frac_part)%string)
              (pow10 (String.length frac_part))).

Definition float_of_str (s : string) : option Q :=
  let (ip, rest) := span_digits s in
  match rest with
  | EmptyString => if str_truthy ip then Some (decimal ip EmptyString) else None
  | String c fp =>
      if Ascii.eqb c "."%char && all_digits fp && (str_truthy ip || str_truthy fp)
      then Some (decimal ip fp) else None
  end.


(** ** Exceptions, results, the process table *)

(** The exception classes the program can meet.  [FileNotFoundError] is
    a subclass of [OSError]; psutil's [NoSuchProcess] and [AccessDenied]
    are not.  [KeyboardInterrupt] is not modelled. *)
Inductive exn : Type :=
| NoSuchProcess
| AccessDenied
| OSError
| FileNotFoundError
| TimeoutExpired
| ValueError
| AttributeError
| TypeError
| OtherException.

Definition is_OSError (e : exn) : bool :=
  match e with
  | OSError | FileNotFoundError => true
  | _ => false
  end.

Definition is_AccessDenied (e : exn) : bool :=
  match e with
  | AccessDenied => true
  | _ => false
  end.

Inductive result (A : Type) : Type :=
| Ok (a : A)
| Raise (e : exn).
Arguments Ok {A} a.
Arguments Raise {A} e.

(** A [psutil.Process] as [process_iter(['pid', 'name', 'cmdline'])]
    yields it: the pid and the two [info] entries, each [None] when psutil
    could not read it. *)
Record Process : Type := mkProcess {
  pid : Z;
  info_name : option string;
  info_cmdline : option (list string)
}.

Inductive signal_kind : Type := SIGINT | CTRL_C_EVENT.

(** [os.name] *)
Inductive os_name : Type := nt | posix.

(** What [subprocess.run] gives for the nvidia-smi query. *)
Record CompletedProcess : Type := mkCompleted {
  returncode : Z;
  stdout : string;
  stderr : string
}.

(** ** Log records, printed lines, events *)

Inductive level : Type := DEBUG | INFO | WARNING | ERROR | CRITICAL.

(** One constructor per message of the program, with the values its
    format string interpolates. *)
Inductive message : Type :=
| GpuTemperatures (temps : list Q) (max_temp : Q)
| NoValidReadings
| NvidiaSmiError (err : string)
| NvidiaSmiNotFound
| NvidiaSmiTimedOut
| ErrorGettingTemperature (e : exn)
| FoundProcess (name : string) (p : Z)
| FoundProcessByCmdline (name : string) (p : Z)
| ErrorFindingProcesses (e : exn)
| NoProcessesToShutdown
| InitiatingShutdown (n : nat)
| SendingShutdownSignal (p : Z)
| SendingCtrlC (p : Z)
| StillRunningAfterCtrlC (p : Z)
| ShutDownViaCtrlC (p : Z)
| CtrlCFailed (p : Z) (e : exn)
| ShutDownViaSigint (p : Z)
| AlreadyTerminated (p : Z)
| ErrorTerminating (p : Z) (e : exn)
| WaitingGracePeriod (g : Z) (n : nat)
| AllShutDown
| StillWaiting (alive_count : Z) (remaining : Z)
| NoTerminationNeeded
| ForceKilling (n : nat)
| ForceKilled (p : Z)
| ErrorForceKilling (p : Z) (e : exn)
| ShutdownCompleted
| WatchdogStarted (threshold : Q)
| CheckInterval (secs : Z)
| CouldNotReadSkipping
| CurrentTemperature (t : Q)
| TemperatureExceeds (t threshold : Q)
| WaitingAfterShutdown
| WatchdogStopped.

Inductive printed : Type :=
| DryRunHeader
| CurrentTemperatureLine (t : Q)
| ThresholdLine (threshold : Q)
| ExceedsThresholdLine
| FoundProcessesLine (n : nat)
| ProcessLine (p : Z) (name : string)
| ProcessInfoUnavailableLine (p : Z)
| NoProcessesFoundLine
| WithinSafeRangeLine
| CouldNotReadLine
| ErrorLoadingConfigLine (e : exn)
| UsingDefaultConfigurationLine
| DefaultConfigSavedLine (config_file : string)
| ErrorSavingConfigLine (e : exn).

(** What the program does to the outside, in order. *)
Inductive event : Type :=
| Log (lvl : level) (m : message)
| Print (l : printed)
| Sleep (secs : Z)
| RunNvidiaSmi
| ProcessIter
| SendSignal (p : Z) (s : signal_kind)
| Terminate (p : Z)
| Kill (p : Z)
| IsRunning (p : Z) (alive : bool)
| WaitProcs (ps : list Z)
| ProcName (p : Z).

(** Seconds spent in [time.sleep] along a trace. *)
Fixpoint total_sleep (tr : list event) : Z :=
  match tr with
  | Sleep secs :: tr' => secs + total_sleep tr'
  | _ :: tr' => total_sleep tr'
  | [] => 0
  end.

(** ** The operating system

    [W] is the state of the machine.  Signals and the passing of time
    change it; liveness is read off it. *)
Record Env (W : Type) : Type := mkEnv {
  env_nvidia_smi : W -> result CompletedProcess * W;
  env_process_iter : W -> list Process * W;
  env_send_signal : Process -> signal_kind -> W -> result unit * W;
  env_terminate : Process -> W -> result unit * W;
  env_kill : Process -> W -> result unit * W;
  env_is_running : Process -> W -> bool;
  env_name : Process -> W -> result string;
  env_sleep : Z -> W -> W
}.
Arguments env_nvidia_smi {W} _ _.
Arguments env_process_iter {W} _ _.
Arguments env_send_signal {W} _ _ _ _.
Arguments env_terminate {W} _ _ _.
Arguments env_kill {W} _ _ _.
Arguments env_is_running {W} _ _ _.
Arguments env_name {W} _ _ _.
Arguments env_sleep {W} _ _ _.

(** ** Computations: a value, the events emitted, the new world *)

Record Run (W A : Type) : Type := mkRun {
  value : A;
  trace : list event;
  final : W
}.
Arguments mkRun {W A} _ _ _.
Arguments value {W A} _.
Arguments trace {W A} _.
Arguments final {W A} _.

Definition M (W A : Type) : Type := W -> Run W A.

Definition ret {W A} (a : A) : M W A := fun w => mkRun a [] w.

Definition bind {W A B} (m : M W A) (f : A -> M W B) : M W B :=
  fun w =>
    let r := m w in
    let r' := f (value r) (final r) in
    mkRun (value r') (trace r ++ trace r') (final r').

Declare Scope run_scope.
Delimit Scope run_scope with run.
Notation "x <- m ;; k" := (bind m (fun x => k))
  (at level 61, m at next level, right associativity) : run_scope.
Notation "m ;; k" := (bind m (fun _ => k))
  (at level 61, right associativity) : run_scope.
Local Open Scope run_scope.

Definition emit {W} (e : event) : M W unit := fun w => mkRun tt [e] w.
Definition log {W} (lvl : level) (m : message) : M W unit := emit (Log lvl m).
Definition print {W} (l : printed) : M W unit := emit (Print l).

(** ** class GPUWatchdog *)

Section GPUWatchdog.

Context {W : Type} (env : Env W).

(** [self.config.*], each read at the type its annotation gives. *)
Variable temp_threshold : Q.
Variable check_interval : Z.
Variable grace_period : Z.
Variable trex_process_names : list string.

Variable os : os_name.

(** *** Calls into the operating system *)

Definition sleep (secs : Z) : M W unit :=
  fun w => mkRun tt [Sleep secs] (env_sleep env secs w).

Definition run_nvidia_smi : M W (result CompletedProcess) :=
  fun w => let (r, w') := env_nvidia_smi env w in mkRun r [RunNvidiaSmi] w'.

Definition process_iter : M W (list Process) :=
  fun w => let (ps, w') := env_process_iter env w in mkRun ps [ProcessIter] w'.

Definition send_signal (proc : Process) (s : signal_kind) : M W (result unit) :=
  fun w => let (r, w') := env_send_signal env proc s w in
           mkRun r [SendSignal (pid proc) s] w'.

Definition terminate (proc : Process) : M W (result unit) :=
  fun w => let (r, w') := env_terminate env proc w in
           mkRun r [Terminate (pid proc)] w'.

Definition kill (proc : Process) : M W (result unit) :=
  fun w => let (r, w') := env_kill env proc w in
           mkRun r [Kill (pid proc)] w'.

Definition is_running (proc : Process) : M W bool :=
  fun w => let b := env_is_running env proc w in
           mkRun b [IsRunning (pid proc) b] w.

Definition proc_name (proc : Process) : M W (result string) :=
  fun w => mkRun (env_name env proc w) [ProcName (pid proc)] w.

(** *** get_gpu_temperature *)

(** The loop over the output lines.  A line is kept when it is non-empty
    and is all digits once its dots are removed; [float] is then applied
    to it, and its [ValueError] leaves the loop. *)
Fixpoint collect_temps (lines : list string) (temps : list Q) : result (list Q) :=
  match lines with
  | [] => Ok temps
  | temp_str :: rest =>
      let temp_str := strip temp_str in
      if str_truthy temp_str && isdigit (remove_dots temp_str) then
        match float_of_str temp_str with
        | Some t => collect_temps rest (temps ++ [t])
        | None => Raise ValueError
        end
      else collect_temps rest temps
  end.

(** [max(temps)] on a non-empty list: the first of the largest. *)
Definition max_float (first : Q) (others : list Q) : Q :=
  fold_left (fun m t => if Qlt_le_dec m t then t else m) others first.

Definition get_gpu_temperature : M W (option Q) :=
  r <- run_nvidia_smi ;;
  match r with
  | Ok res =>
      if returncode res =? 0 then
        match collect_temps (split newline (strip (stdout res))) [] with
        | Ok (t :: ts) =>
            let max_temp := max_float t ts in
            log DEBUG (GpuTemperatures (t :: ts) max_temp) ;;
            ret (Some max_temp)
        | Ok [] =>
            log ERROR NoValidReadings ;;
            ret None
        | Raise e =>
            log ERROR (ErrorGettingTemperature e) ;;
            ret None
        end
      else
        (log ERROR (NvidiaSmiError (stderr res)) ;;
         ret None)
  | Raise FileNotFoundError =>
      log ERROR NvidiaSmiNotFound ;;
      ret None
  | Raise TimeoutExpired =>
      log ERROR NvidiaSmiTimedOut ;;
      ret None
  | Raise e =>
      log ERROR (ErrorGettingTemperature e) ;;
      ret None
  end.

(** *** find_trex_processes *)

(** [any(trex_name.lower() in process_name for trex_name in ...)] *)
Definition name_matches (process_name : string) : bool :=
  existsb (fun trex_name => contains (lower trex_name) process_name)
          trex_process_names.

Definition cmdline_matches (cmdline : string) : bool :=
  contains "t-rex" cmdline || contains "trex" cmdline.

Definition cmdline_of (proc : Process) : string :=
  lower (join_spaces (match info_cmdline proc with
                      | Some args => args
                      | None => []
                      end)).

(** The loop over the enumeration.  A process whose name is [None] makes
    [.lower()] raise [AttributeError]; the inner handler (for
    [NoSuchProcess] and [AccessDenied], which nothing in the body raises
    once [info] is filled) does not catch it, so it reaches the outer
    one, which logs it and ends the loop with the processes found so
    far. *)
Fixpoint find_loop (procs trex_processes : list Process) : M W (list Process) :=
  match procs with
  | [] => ret trex_processes
  | proc :: rest =>
      match info_name proc with
      | None =>
          log ERROR (ErrorFindingProcesses AttributeError) ;;
          ret trex_processes
      | Some name =>
          let process_name := lower name in
          let cmdline := cmdline_of proc in
          if name_matches process_name then
            log DEBUG (FoundProcess name (pid proc)) ;;
            find_loop rest (trex_processes ++ [proc])
          else if cmdline_matches cmdline then
            log DEBUG (FoundProcessByCmdline name (pid proc)) ;;
            find_loop rest (trex_processes ++ [proc])
          else find_loop rest trex_processes
      end
  end.

Definition find_trex_processes : M W (list Process) :=
  procs <- process_iter ;;
  find_loop procs [].

(** *** graceful_shutdown_trex *)

(** The two outer handlers of the first loop; neither appends. *)
Definition outer_except (proc : Process) (e : exn) : M W bool :=
  match e with
  | NoSuchProcess =>
      log INFO (AlreadyTerminated (pid proc)) ;;
      ret false
  | _ =>
      log ERROR (ErrorTerminating (pid proc) e) ;;
      ret false
  end.

(** [proc.terminate()] in a fallback handler, then on to the append. *)
Definition terminate_fallback (proc : Process) : M W bool :=
  r <- terminate proc ;;
  match r with
  | Ok _ => ret true
  | Raise e => outer_except proc e
  end.

(** One turn of the first loop.  The value tells whether the turn reached
    [terminated_processes.append(proc)]. *)
Definition signal_process (proc : Process) : M W bool :=
  log INFO (SendingShutdownSignal (pid proc)) ;;
  match os with
  | nt =>
      log INFO (SendingCtrlC (pid proc)) ;;
      r <- send_signal proc CTRL_C_EVENT ;;
      match r with
      | Ok _ =>
          sleep 2 ;;
          alive <- is_running proc ;;
          if alive then
            log INFO (StillRunningAfterCtrlC (pid proc)) ;;
            ret true
          else
            (log INFO (ShutDownViaCtrlC (pid proc)) ;;
             ret false)
      | Raise e =>
          if is_OSError e || is_AccessDenied e then
            log WARNING (CtrlCFailed (pid proc) e) ;;
            terminate_fallback proc
          else outer_except proc e
      end
  | posix =>
      r <- send_signal proc SIGINT ;;
      match r with
      | Ok _ =>
          sleep 2 ;;
          alive <- is_running proc ;;
          if negb alive then
            log INFO (ShutDownViaSigint (pid proc)) ;;
            ret false
          else ret true
      | Raise _ => terminate_fallback proc
      end
  end.

Fixpoint interrupt_phase (processes terminated_processes : list Process)
  : M W (list Process) :=
  match processes with
  | [] => ret terminated_processes
  | proc :: rest =>
      appended <- signal_process proc ;;
      interrupt_phase rest
        (if appended then terminated_processes ++ [proc] else terminated_processes)
  end.

(** [range(start, 0, -5)]: start, start - 5, ... while positive. *)
Definition countdown (start : Z) : list Z :=
  map (fun i => start - 5 * Z.of_nat i) (seq 0 (Z.to_nat ((start + 4) / 5))).

(** [sum(1 for proc in terminated_processes if proc.is_running())] *)
Fixpoint count_running (procs : list Process) : M W Z :=
  match procs with
  | [] => ret 0
  | proc :: rest =>
      alive <- is_running proc ;;
      n <- count_running rest ;;
      ret ((if alive then 1 else 0) + n)
  end.

(** The countdown loop, over the values [remaining] still has to take. *)
Fixpoint poll (terminated_processes : list Process) (ticks : list Z) : M W unit :=
  match ticks with
  | [] => ret tt
  | remaining :: later =>
      alive_count <- count_running terminated_processes ;;
      if alive_count =? 0 then log INFO AllShutDown
      else
        (log INFO (StillWaiting alive_count remaining) ;;
         sleep 5 ;;
         poll terminated_processes later)
  end.

(** [psutil.wait_procs(procs, timeout=0)], second component: the processes
    still running, without waiting.  psutil builds it from a set and
    returns it in no particular order, each process once; the model keeps
    the order of [procs] and its repetitions, so what carries over to the
    code is what is said of its members, for lists without
    repetitions. *)
Definition wait_procs (procs : list Process) : M W (list Process) :=
  fun w => mkRun (filter (fun proc => env_is_running env proc w) procs)
                 [WaitProcs (map pid procs)] w.

Definition wait_phase (terminated_processes : list Process) : M W (list Process) :=
  match terminated_processes with
  | _ :: _ =>
      log INFO (WaitingGracePeriod grace_period (List.length terminated_processes)) ;;
      poll terminated_processes (countdown grace_period) ;;
      wait_procs terminated_processes
  | [] =>
      log INFO NoTerminationNeeded ;;
      ret []
  end.

Fixpoint kill_loop (alive : list Process) : M W unit :=
  match alive with
  | [] => ret tt
  | proc :: rest =>
      r <- kill proc ;;
      match r with
      | Ok _ => log INFO (ForceKilled (pid proc))
      | Raise e => log ERROR (ErrorForceKilling (pid proc) e)
      end ;;
      kill_loop rest
  end.

Definition kill_phase (alive : list Process) : M W unit :=
  match alive with
  | _ :: _ =>
      log WARNING (ForceKilling (List.length alive)) ;;
      kill_loop alive
  | [] => ret tt
  end.

Definition graceful_shutdown_trex (processes : list Process) : M W bool :=
  match processes with
  | [] =>
      log INFO NoProcessesToShutdown ;;
      ret true
  | _ :: _ =>
      log WARNING (InitiatingShutdown (List.length processes)) ;;
      terminated_processes <- interrupt_phase processes [] ;;
      alive <- wait_phase terminated_processes ;;
      kill_phase alive ;;
      log INFO ShutdownCompleted ;;
      ret true
  end.

(** *** run *)

(** One turn of the [while self.running] loop. *)
Definition run_tick : M W unit :=
  current_temp <- get_gpu_temperature ;;
  match current_temp with
  | None =>
      log WARNING CouldNotReadSkipping ;;
      sleep check_interval
  | Some current_temp =>
      log DEBUG (CurrentTemperature current_temp) ;;
      if Qle_bool temp_threshold current_temp then
        log CRITICAL (TemperatureExceeds current_temp temp_threshold) ;;
        trex_processes <- find_trex_processes ;;
        match trex_processes with
        | _ :: _ =>
            graceful_shutdown_trex trex_processes ;;
            log INFO WaitingAfterShutdown ;;
            sleep 60
        | [] =>
            log WARNING NoProcessesToShutdown ;;
            sleep check_interval
        end
      else sleep check_interval
  end.

(** The loop runs until an exception interrupts it; [ticks] bounds the
    turns observed.  [time.sleep] raises [ValueError] on a negative
    argument, which ends the loop (the [try] is around the [while]), so
    the model stands for the code when [check_interval] is not
    negative. *)
Fixpoint run_loop (ticks : nat) : M W unit :=
  match ticks with
  | O => ret tt
  | S n => run_tick ;; run_loop n
  end.

Definition run (ticks : nat) : M W unit :=
  log INFO (WatchdogStarted temp_threshold) ;;
  log INFO (CheckInterval check_interval) ;;
  run_loop ticks.

(** *** main, the [--dry-run] branch *)

(** Truth value of an [Optional[float]]: [None] and [0.0] are false. *)
Definition temp_truthy (temp : option Q) : bool :=
  match temp with
  | Some t => negb (Qeq_bool t 0)
  | None => false
  end.

Fixpoint print_processes (processes : list Process) : M W unit :=
  match processes with
  | [] => ret tt
  | proc :: rest =>
      r <- proc_name proc ;;
      match r with
      | Ok name => print (ProcessLine (pid proc) name)
      | Raise _ => print (ProcessInfoUnavailableLine (pid proc))
      end ;;
      print_processes rest
  end.

Definition dry_run : M W unit :=
  print DryRunHeader ;;
  temp <- get_gpu_temperature ;;
  if temp_truthy temp then
    match temp with
    | Some t =>
        print (CurrentTemperatureLine t) ;;
        print (ThresholdLine temp_threshold) ;;
        if Qle_bool temp_threshold t then
          print ExceedsThresholdLine ;;
          processes <- find_trex_processes ;;
          match processes with
          | _ :: _ =>
              print (FoundProcessesLine (List.length processes)) ;;
              print_processes processes
          | [] => print NoProcessesFoundLine
          end
        else print WithinSafeRangeLine
    | None => ret tt (* not reached: None is not truthy *)
    end
  else print CouldNotReadLine.

End GPUWatchdog.

(** ** The configuration file *)

(** The values [json.load] produces and [json.dump] accepts. *)
#[warnings="-register-all"]
Inductive json : Type :=
| JNull
| JBool (b : bool)
| JInt (z : Z)
| JFloat (q : Q)
| JString (s : string)
| JArray (items : list json)
| JObject (members : list (string * json)).

(** [@dataclass class Config].  A dataclass does not check its
    annotations: a field holds whatever value it is given. *)
Record Config : Type := mkConfig {
  temp_threshold : json;
  check_interval : json;
  grace_period : json;
  trex_process_names : json;
  log_level : json
}.

(** [Config()]: every field at its declared default. *)
Definition Config_defaults : Config :=
  {| temp_threshold := JFloat 85;
     check_interval := JInt 10;
     grace_period := JInt 30;
     trex_process_names :=
       JArray [JString "t-rex.exe"; JString "trex.exe"; JString "t-rex"; JString "trex"];
     log_level := JString "INFO" |}.

(** One keyword argument of the call that unpacks [config_data] into
    [Config]; a keyword that is not a field is a [TypeError]. *)
Definition set_field (c : Config) (key : string) (v : json) : result Config :=
  if (key =? "temp_threshold")%string then
    Ok (mkConfig v (check_interval c) (grace_period c) (trex_process_names c) (log_level c))
  else if (key =? "check_interval")%string then
    Ok (mkConfig (temp_threshold c) v (grace_period c) (trex_process_names c) (log_level c))
  else if (key =? "grace_period")%string then
    Ok (mkConfig (temp_threshold c) (check_interval c) v (trex_process_names c) (log_level c))
  else if (key =? "trex_process_names")%string then
    Ok (mkConfig (temp_threshold c) (check_interval c) (grace_period c) v (log_level c))
  else if (key =? "log_level")%string then
    Ok (mkConfig (temp_threshold c) (check_interval c) (grace_period c) (trex_process_names c) v)
  else Raise TypeError.

Fixpoint set_fields (c : Config) (members : list (string * json)) : result Config :=
  match members with
  | [] => Ok c
  | (key, v) :: rest =>
      match set_field c key v with
      | Ok c' => set_fields c' rest
      | Raise e => Raise e
      end
  end.

(** [Config] applied to the unpacked [config_data]: only a mapping can
    be unpacked. *)
Definition Config_of (config_data : json) : result Config :=
  match config_data with
  | JObject members => set_fields Config_defaults members
  | _ => Raise TypeError
  end.

(** A file, as the program sees it: [open] fails, or the text is not
    JSON, or it is the document [json.load] returns.  [json.dump] followed
    by [json.load] gives the value back; the text in between is not
    modelled. *)
Inductive file : Type :=
| Unreadable
| NotJson
| Document (doc : json).

(** What opening a file for writing and dumping a document into it
    comes to: all goes well; or [open] raises and nothing is touched; or
    [open] succeeds, which empties the file, and the dump then fails,
    which leaves a text that is not JSON. *)
Inductive write_result : Type :=
| Written
| OpenFails
| DumpFails.

Record filesystem : Type := mkFs {
  files : string -> option file;
  writes : string -> write_result
}.

Definition load_config (fs : filesystem) (config_file : string)
  : Config * list printed :=
  match files fs config_file with
  | Some f =>
      let loaded :=
        match f with
        | Unreadable => Raise OSError
        | NotJson => Raise ValueError
        | Document config_data => Config_of config_data
        end in
      match loaded with
      | Ok c => (c, [])
      | Raise e =>
          (Config_defaults, [ErrorLoadingConfigLine e; UsingDefaultConfigurationLine])
      end
  | None => (Config_defaults, [])
  end.

Definition default_config : json :=
  JObject [("temp_threshold", JFloat 85);
           ("check_interval", JInt 10);
           ("grace_period", JInt 30);
           ("trex_process_names",
             JArray [JString "t-rex.exe"; JString "trex.exe"; JString "t-rex"; JString "trex"]);
           ("log_level", JString "INFO")].

Definition write_file (fs : filesystem) (path : string) (f : file) : filesystem :=
  mkFs (fun p => if (p =? path)%string then Some f else files fs p) (writes fs).

Definition save_default_config (fs : filesystem) (config_file : string)
  : filesystem * list printed :=
  match writes fs config_file with
  | Written =>
      (write_file fs config_file (Document default_config),
       [DefaultConfigSavedLine config_file])
  | OpenFails => (fs, [ErrorSavingConfigLine OSError])
  | DumpFails =>
      (write_file fs config_file NotJson, [ErrorSavingConfigLine OSError])
  end.

(** What "malformed" covers: a file that cannot be read, is not JSON, is
    JSON but not an object, or is an object with a key that is no field of
    [Config]. *)
Definition is_field (key : string) : bool :=
  existsb (String.eqb key)
    ["temp_threshold"; "check_interval"; "grace_period"; "trex_process_names"; "log_level"].

Definition malformed (f : file) : bool :=
  match f with
  | Unreadable | NotJson => true
  | Document (JObject members) => negb (forallb (fun kv => is_field (fst kv)) members)
  | Document _ => true
  end.

(** ** A small machine to run the program on

    A clock, a sensor answer, and a table of processes, each with the time
    at which it exits and its reaction to the three signals. *)

Inductive reaction : Type :=
| Exits (after : Z)
| Ignores
| Fails (e : exn).

Record sim_proc : Type := mkSimProc {
  sp_proc : Process;
  sp_exit_at : option Z;
  sp_on_interrupt : reaction;
  sp_on_terminate : reaction;
  sp_on_kill : reaction
}.

Record sim : Type := mkSim {
  now : Z;
  sensor : result CompletedProcess;
  table : list sim_proc
}.

Definition sp_running (t : Z) (sp : sim_proc) : bool :=
  match sp_exit_at sp with
  | Some e => t <? e
  | None => true
  end.

Definition sim_lookup (p : Z) (w : sim) : option sim_proc :=
  find (fun sp => pid (sp_proc sp) =? p) (table w).

Definition sim_is_running (proc : Process) (w : sim) : bool :=
  match sim_lookup (pid proc) w with
  | Some sp => sp_running (now w) sp
  | None => false
  end.

Definition sp_exit_by (t : Z) (sp : sim_proc) : sim_proc :=
  mkSimProc (sp_proc sp)
            (match sp_exit_at sp with
             | Some e => Some (Z.min e t)
             | None => Some t
             end)
            (sp_on_interrupt sp) (sp_on_terminate sp) (sp_on_kill sp).

Definition sim_deliver (pick : sim_proc -> reaction) (proc : Process) (w : sim)
  : result unit * sim :=
  match sim_lookup (pid proc) w with
  | Some sp =>
      if sp_running (now w) sp then
        match pick sp with
        | Exits after =>
            (Ok tt,
             mkSim (now w) (sensor w)
                   (map (fun sp' => if pid (sp_proc sp') =? pid proc
                                    then sp_exit_by (now w + after) sp' else sp')
                        (table w)))
        | Ignores => (Ok tt, w)
        | Fails e => (Raise e, w)
        end
      else (Raise NoSuchProcess, w)
  | None => (Raise NoSuchProcess, w)
  end.

Definition sim_env : Env sim :=
  {| env_nvidia_smi := fun w => (sensor w, w);
     env_process_iter :=
       fun w => (map sp_proc (filter (sp_running (now w)) (table w)), w);
     env_send_signal := fun proc _ => sim_deliver sp_on_interrupt proc;
     env_terminate := sim_deliver sp_on_terminate;
     env_kill := sim_deliver sp_on_kill;
     env_is_running := sim_is_running;
     env_name := fun proc _ =>
       match info_name proc with
       | Some n => Ok n
       | None => Raise AccessDenied
       end;
     env_sleep := fun secs w => mkSim (now w + secs) (sensor w) (table w) |}.

Definition miner (p : Z) : Process :=
  mkProcess p (Some "t-rex") (Some ["t-rex"; "-c"; "config.json"]).

(** A miner that never reacts to the interrupt nor to terminate, and
    dies on kill. *)
Definition stubborn (p : Z) : sim_proc :=
  mkSimProc (miner p) None Ignores Ignores (Exits 0).

(** A miner that exits one second after the interrupt. *)
Definition obedient (p : Z) : sim_proc :=
  mkSimProc (miner p) None (Exits 1) (Exits 0) (Exits 0).


(** A miner whose signals all fail with [e]. *)
Definition shielded (p : Z) (e : exn) : sim_proc :=
  mkSimProc (miner p) None (Fails e) (Fails e) (Fails e).

(** The text nvidia-smi prints for the given values, one per line. *)
Fixpoint smi_lines (values : list string) : string :=
  match values with
  | [] => EmptyString
  | v :: rest => (v ++ String newline (smi_lines rest))%string
  end.

Definition reading (values : list string) : result CompletedProcess :=
  Ok (mkCompleted 0 (smi_lines values) "").

Definition machine (values : list string) (procs : list sim_proc) : sim :=
  mkSim 0 (reading values) procs.


(** ** Outcomes, as the specification names them

    The procedure returns a boolean and keeps no record per process; the
    only per-process account it gives is in its log.  [reported_state]
    reads a log record as the final state it reports for process [p]. *)

Inductive final_state : Type :=
| gracefullyExited
| forceKilled
| killFailed
| alreadyGone.

Definition reported_state (p : Z) (e : event) : option final_state :=
  match e with
  | Log _ (ShutDownViaSigint q) | Log _ (ShutDownViaCtrlC q) =>
      if q =? p then Some gracefullyExited else None
  | Log _ (ForceKilled q) =>
      if q =? p then Some forceKilled else None
  | Log _ (ErrorForceKilling q NoSuchProcess) | Log _ (AlreadyTerminated q) =>
      if q =? p then Some alreadyGone else None
  | Log _ (ErrorForceKilling q _) =>
      if q =? p then Some killFailed else None
  | _ => None
  end.

(** The final states a trace reports for process [p], in order. *)
Fixpoint outcomes (p : Z) (tr : list event) : list final_state :=
  match tr with
  | [] => []
  | e :: tr' =>
      match reported_state p e with
      | Some s => s :: outcomes p tr'
      | None => outcomes p tr'
      end
  end.

(** Whether a failed interrupt makes the first loop call
    [proc.terminate()]: always under the bare [except:] of the Unix
    branch, only for [OSError] and [AccessDenied] under the handler of
    the Windows branch. *)
Definition escalates (os : os_name) (e : exn) : bool :=
  match os with
  | posix => true
  | nt => is_OSError e || is_AccessDenied e
  end.

(** The signal the first loop sends. *)
Definition interrupt_signal (os : os_name) : signal_kind :=
  match os with
  | nt => CTRL_C_EVENT
  | posix => SIGINT
  end.

(** The processes the enumeration loop gets to see: those before the
    first one without a name. *)
Fixpoint named_prefix (procs : list Process) : list Process :=
  match procs with
  | [] => []
  | proc :: rest =>
      match info_name proc with
      | Some _ => proc :: named_prefix rest
      | None => []
      end
  end.

(** A Python script that watches the miner: its name is python, its
    command line mentions trex. *)
Definition monitor_script : Process :=
  mkProcess 7 (Some "python") (Some ["python"; "trex_monitor.py"]).

Definition trex_exe : Process :=
  mkProcess 4 (Some "T-Rex.EXE") (Some ["C:\miners\T-Rex.EXE"]).

(** A disk with one file that is not JSON, and room to write. *)
Definition disk : filesystem :=
  mkFs (fun p => if (p =? "broken.json")%string then Some NotJson else None)
       (fun _ => Written).

(** What a trace does, leaving out what it logs or prints. *)
Definition is_action (e : event) : bool :=
  match e with
  | Log _ _ | Print _ => false
  | _ => true
  end.

Definition actions (tr : list event) : list event := filter is_action tr.

(** Events on the process table: enumeration, signals, liveness. *)
Definition touches_processes (e : event) : bool :=
  match e with
  | ProcessIter | SendSignal _ _ | Terminate _ | Kill _
  | IsRunning _ _ | WaitProcs _ | ProcName _ => true
  | _ => false
  end.

(** What the two tests of the enumeration loop select. *)
Definition selected (trex_process_names : list string) (proc : Process) : bool :=
  match info_name proc with
  | Some name =>
      name_matches trex_process_names (lower name)
      || cmdline_matches (cmdline_of proc)
  | None => false
  end.

(** The guard of the temperature loop on one output line. *)
Definition line_kept (line : string) : bool :=
  str_truthy (strip line) && isdigit (remove_dots (strip line)).

(** The values of the lines that pass the guard and parse. *)
Definition parsed_values (lines : list string) : list Q :=
  flat_map (fun line =>
              if line_kept line then
                match float_of_str (strip line) with
                | Some t => [t]
                | None => []
                end
              else [])
           lines.

(** ** Further observers *)

(** A string of seven-bit characters only.  On such strings Python's
    [str.strip], [str.isdigit] and [str.lower] are the operations
    defined above; beyond them Python knows more digits and more white
    space. *)
Fixpoint seven_bit (s : string) : bool :=
  match s with
  | String c s' => (nat_of_ascii c <? 128)%nat && seven_bit s'
  | EmptyString => true
  end.

(** The number of dots in a string. *)
Fixpoint count_dots (s : string) : nat :=
  match s with
  | String c s' => ((if Ascii.eqb c "."%char then 1 else 0) + count_dots s')%nat
  | EmptyString => O
  end.

(** A process psutil could not name, with a command line that mentions
    the miner. *)
Definition unnamed_miner (p : Z) : Process :=
  mkProcess p None (Some ["t-rex"; "-a"; "ethash"]).

Definition idle_proc (proc : Process) : sim_proc :=
  mkSimProc proc None Ignores Ignores Ignores.

(** What the shutdown procedure may do, given the pids of its targets:
    log, sleep, and signal or probe a target. *)
Definition shutdown_event (pids : list Z) (e : event) : Prop :=
  match e with
  | Log _ _ | Sleep _ => True
  | SendSignal p _ | Terminate p | Kill p | IsRunning p _ => In p pids
  | WaitProcs ps => incl ps pids
  | Print _ | RunNvidiaSmi | ProcessIter | ProcName _ => False
  end.

Definition is_send (e : event) : bool :=
  match e with
  | SendSignal _ _ => true
  | _ => false
  end.

Definition is_kill (e : event) : bool :=
  match e with
  | Kill _ => true
  | _ => false
  end.

Definition is_smi (e : event) : bool :=
  match e with
  | RunNvidiaSmi => true
  | _ => false
  end.

(** Events that look at the machine without acting on a process. *)
Definition observes_only (e : event) : bool :=
  match e with
  | Log _ _ | Print _ | RunNvidiaSmi | ProcessIter | ProcName _ => true
  | _ => false
  end.

(** ** main, the [--test-mode] branch

    Test mode replaces [watchdog.graceful_shutdown_trex] by the local
    function [test_shutdown] and then runs the same loop. *)

Section TestMode.

Context {W : Type} (env : Env W).

Variable temp_threshold : Q.
Variable check_interval : Z.
Variable grace_period : Z.
Variable trex_process_names : list string.

(** One turn of the loop of [run], with the method it finds under
    [self.graceful_shutdown_trex]; its return value is not used. *)
Definition run_tick_with {A : Type} (shutdown : list Process -> M W A)
  : M W unit :=
  (current_temp <- get_gpu_temperature env ;;
   match current_temp with
   | None =>
       log WARNING CouldNotReadSkipping ;;
       sleep env check_interval
   | Some current_temp =>
       log DEBUG (CurrentTemperature current_temp) ;;
       if Qle_bool temp_threshold current_temp then
         log CRITICAL (TemperatureExceeds current_temp temp_threshold) ;;
         trex_processes <- find_trex_processes env trex_process_names ;;
         match trex_processes with
         | _ :: _ =>
             shutdown trex_processes ;;
             log INFO WaitingAfterShutdown ;;
             sleep env 60
         | [] =>
             log WARNING NoProcessesToShutdown ;;
             sleep env check_interval
         end
       else sleep env check_interval
   end)%run.

Fixpoint run_loop_with {A : Type} (shutdown : list Process -> M W A)
         (ticks : nat) : M W unit :=
  match ticks with
  | O => ret tt
  | S n => (run_tick_with shutdown ;; run_loop_with shutdown n)%run
  end.

(** The lines [test_shutdown] prints. *)
Inductive test_line : Type :=
| WouldShutdown (n : nat) (grace : Z)
| WouldSignal (p : Z) (name : string)
| WouldSignalUnnamed (p : Z).

(** The loop of [test_shutdown]: one line per process, with its name
    when [proc.name()] does not raise.  The lines printed so far are
    carried along. *)
Fixpoint test_shutdown_loop (processes : list Process) (lines : list test_line)
  : M W (list test_line) :=
  match processes with
  | [] => ret lines
  | proc :: rest =>
      (r <- proc_name env proc ;;
       test_shutdown_loop rest
         (lines ++ [match r with
                    | Ok name => WouldSignal (pid proc) name
                    | Raise _ => WouldSignalUnnamed (pid proc)
                    end]))%run
  end.

(** [test_shutdown]: returns [True]; the lines it printed are given
    beside it, in order. *)
Definition test_shutdown (processes : list Process) : M W (bool * list test_line) :=
  (lines <- test_shutdown_loop processes
              [WouldShutdown (List.length processes) grace_period] ;;
   ret (true, lines))%run.

End TestMode.

(** The machine of [sim_env] with a sensor that always gives the same
    answer, whatever the state. *)
Definition steady_env (answer : result CompletedProcess) : Env sim :=
  {| env_nvidia_smi := fun w => (answer, w);
     env_process_iter := env_process_iter sim_env;
     env_send_signal := env_send_signal sim_env;
     env_terminate := env_terminate sim_env;
     env_kill := env_kill sim_env;
     env_is_running := env_is_running sim_env;
     env_name := env_name sim_env;
     env_sleep := env_sleep sim_env |}.

Definition is_log (e : event) : bool :=
  match e with
  | Log _ _ => true
  | _ => false
  end.

Definition is_sleep (e : event) : bool :=
  match e with
  | Sleep _ => true
  | _ => false
  end.

(** ** More on the configuration *)

(** [getattr(config, key)] for the five fields. *)
Definition field (c : Config) (key : string) : option json :=
  if (key =? "temp_threshold")%string then Some (temp_threshold c)
  else if (key =? "check_interval")%string then Some (check_interval c)
  else if (key =? "grace_period")%string then Some (grace_period c)
  else if (key =? "trex_process_names")%string then Some (trex_process_names c)
  else if (key =? "log_level")%string then Some (log_level c)
  else None.

(** [config_data.get(key)] on the members of a JSON object. *)
Fixpoint lookup (key : string) (members : list (string * json)) : option json :=
  match members with
  | [] => None
  | (k, v) :: rest => if (k =? key)%string then Some v else lookup key rest
  end.

(** The two command-line overrides, as argparse leaves them: [None]
    when the option is absent. *)
Record Args : Type := mkArgs {
  args_config : string;
  args_temp_threshold : option Q;
  args_check_interval : option Z
}.

(** [main], from [load_config(args.config)] to the overrides.  Each
    override is guarded by the truth value of the argument: absent and
    zero both leave the loaded value. *)
Definition main_config (fs : filesystem) (args : Args) : Config :=
  let config := fst (load_config fs (args_config args)) in
  let config :=
    match args_temp_threshold args with
    | Some t =>
        if negb (Qeq_bool t 0) then
          mkConfig (JFloat t) (check_interval config) (grace_period config)
                   (trex_process_names config) (log_level config)
        else config
    | None => config
    end in
  match args_check_interval args with
  | Some n =>
      if negb (n =? 0) then
        mkConfig (temp_threshold config) (JInt n) (grace_period config)
                 (trex_process_names config) (log_level config)
      else config
  | None => config
  end.

(** A disk whose configuration file sets two fields, one of them to a
    value of the wrong type. *)
Definition partial_disk : filesystem :=
  mkFs (fun p => if (p =? "gpu_watchdog_config.json")%string
                 then Some (Document (JObject [("grace_period", JString "soon");
                                               ("check_interval", JInt 5)]))
                 else None)
       (fun p => if (p =? "readonly.json")%string then OpenFails
                 else if (p =? "full.json")%string then DumpFails
                 else Written).

(** The pid a signalling event is aimed at. *)
Definition signalled (e : event) : option Z :=
  match e with
  | SendSignal p _ | Terminate p | Kill p => Some p
  | _ => None
  end.

(** * Properties *)

(** ** Traces *)

Lemma total_sleep_app (a b : list event) :
  total_sleep (a ++ b) = total_sleep a + total_sleep b.
Proof.
  induction a as [|e a IH]; simpl; [reflexivity|].
  destruct e; rewrite IH; lia.
Qed.

Lemma trace_bind {W A B} (m : M W A) (f : A -> M W B) (w : W) :
  trace (bind m f w) = trace (m w) ++ trace (f (value (m w)) (final (m w))).
Proof. reflexivity. Qed.

Lemma value_bind {W A B} (m : M W A) (f : A -> M W B) (w : W) :
  value (bind m f w) = value (f (value (m w)) (final (m w))).
Proof. reflexivity. Qed.

Lemma final_bind {W A B} (m : M W A) (f : A -> M W B) (w : W) :
  final (bind m f w) = final (f (value (m w)) (final (m w))).
Proof. reflexivity. Qed.

(** Unfold the calls into the operating system and split on what they
    return. *)
Ltac os_calls :=
  unfold terminate_fallback, outer_except, send_signal, terminate, kill,
    is_running, sleep, log, emit, ret, bind; simpl.

Ltac split_result :=
  match goal with
  | |- context [env_send_signal ?e ?p ?s ?w] =>
      destruct (env_send_signal e p s w) as [[[]|[]] ?]; simpl
  | |- context [env_terminate ?e ?p ?w] =>
      destruct (env_terminate e p w) as [[[]|[]] ?]; simpl
  | |- context [env_kill ?e ?p ?w] =>
      destruct (env_kill e p w) as [[[]|[]] ?]; simpl
  | |- context [env_is_running ?e ?p ?w] =>
      destruct (env_is_running e p w); simpl
  end.

Section Shutdown.

Context {W : Type} (env : Env W).
Variable os : os_name.

(** *** The interrupt phase sleeps one settle delay per target at most *)

Lemma signal_process_sleep (proc : Process) (w : W) :
  total_sleep (trace (signal_process env os proc w)) = 0
  \/ total_sleep (trace (signal_process env os proc w)) = 2.
Proof.
  unfold signal_process; destruct os; os_calls;
    repeat split_result; auto.
Qed.

Lemma interrupt_phase_sleep (processes acc : list Process) (w : W) :
  total_sleep (trace (interrupt_phase env os processes acc w))
  <= 2 * Z.of_nat (List.length processes).
Proof.
  revert acc w; induction processes as [|proc rest IH]; intros acc w.
  - simpl; lia.
  - cbn [interrupt_phase]. rewrite trace_bind, total_sleep_app.
    specialize (IH (if value (signal_process env os proc w)
                    then acc ++ [proc] else acc)
                   (final (signal_process env os proc w))).
    destruct (signal_process_sleep proc w) as [E|E]; rewrite E;
      cbn [List.length]; lia.
Qed.

(** *** The countdown *)

Lemma count_running_final (procs : list Process) (w : W) :
  final (count_running env procs w) = w.
Proof.
  induction procs as [|proc rest IH]; [reflexivity|].
  simpl. exact IH.
Qed.

Lemma count_running_sleep (procs : list Process) (w : W) :
  total_sleep (trace (count_running env procs w)) = 0.
Proof.
  induction procs as [|proc rest IH]; [reflexivity|].
  simpl. rewrite app_nil_r. exact IH.
Qed.

Lemma count_running_value (procs : list Process) (w : W) :
  value (count_running env procs w)
  = Z.of_nat (List.length (filter (fun proc => env_is_running env proc w) procs)).
Proof.
  induction procs as [|proc rest IH]; [reflexivity|].
  simpl. rewrite IH.
  destruct (env_is_running env proc w); cbn [List.length]; lia.
Qed.

Lemma poll_sleep_upper (terminated : list Process) (ticks : list Z) (w : W) :
  0 <= total_sleep (trace (poll env terminated ticks w))
    <= 5 * Z.of_nat (List.length ticks).
Proof.
  revert w; induction ticks as [|remaining later IH]; intro w.
  - simpl; lia.
  - cbn [poll List.length]. rewrite Nat2Z.inj_succ.
    rewrite trace_bind, total_sleep_app, count_running_sleep,
      count_running_final.
    destruct (value (count_running env terminated w) =? 0).
    + cbn [log emit trace total_sleep]. lia.
    + unfold log, emit, sleep. rewrite !trace_bind.
      cbn [trace final total_sleep app].
      specialize (IH (env_sleep env 5 w)). lia.
Qed.

(** [countdown] is Python's [range(start, 0, -5)]: it yields [start] and
    goes on from [start - 5] as long as the value is positive. *)
Lemma countdown_unfold (g : Z) :
  countdown g = if 0 <? g then g :: countdown (g - 5) else [].
Proof.
  unfold countdown. destruct (0 <? g) eqn:E.
  - apply Z.ltb_lt in E.
    replace (g + 4) with (g - 5 + 4 + 1 * 5) by lia.
    rewrite Z.div_add by lia.
    assert (Hq : 0 <= (g - 5 + 4) / 5) by (apply Z.div_pos; lia).
    rewrite Z2Nat.inj_add by lia.
    change (Z.to_nat 1) with 1%nat. rewrite Nat.add_1_r.
    cbn [seq map]. f_equal; [simpl; lia|].
    rewrite <- seq_shift, map_map. apply map_ext.
    intro i. rewrite Nat2Z.inj_succ. lia.
  - apply Z.ltb_ge in E.
    assert (Hq : (g + 4) / 5 < 1) by (apply Z.div_lt_upper_bound; lia).
    destruct ((g + 4) / 5); [reflexivity|lia|reflexivity].
Qed.

Lemma countdown_length (g : Z) :
  List.length (countdown g) = Z.to_nat ((g + 4) / 5).
Proof. unfold countdown. rewrite length_map, length_seq. reflexivity. Qed.


(** Whatever the grace period, the countdown sleeps less than five
    seconds past it. *)
Lemma countdown_overrun (g : Z) :
  0 <= g -> 5 * Z.of_nat (List.length (countdown g)) < g + 5.
Proof.
  intro Hg. rewrite countdown_length, Z2Nat.id.
  - pose proof (Z.mul_div_le (g + 4) 5). lia.
  - apply Z.div_pos; lia.
Qed.

Lemma wait_phase_sleep (g : Z) (terminated : list Process) (w : W) :
  0 <= total_sleep (trace (wait_phase env g terminated w))
    <= 5 * Z.of_nat (List.length (countdown g)).
Proof.
  destruct terminated as [|proc rest]; cbn [wait_phase].
  - unfold log, emit, ret. rewrite trace_bind.
    cbn [trace total_sleep app]. lia.
  - unfold log, emit, wait_procs. rewrite !trace_bind, !total_sleep_app.
    cbn [trace final total_sleep].
    pose proof (poll_sleep_upper (proc :: rest) (countdown g) w). lia.
Qed.

Lemma wait_phase_value (g : Z) (terminated : list Process) (w : W) :
  value (wait_phase env g terminated w)
  = filter (fun proc => env_is_running env proc
                          (final (wait_phase env g terminated w)))
           terminated.
Proof.
  destruct terminated as [|proc rest]; [reflexivity|].
  cbn [wait_phase]. unfold log, emit. rewrite !value_bind, !final_bind.
  reflexivity.
Qed.

(** *** The kill phase *)

Lemma kill_loop_sleep (alive : list Process) (w : W) :
  total_sleep (trace (kill_loop env alive w)) = 0.
Proof.
  revert w; induction alive as [|proc rest IH]; intro w; [reflexivity|].
  cbn [kill_loop]. rewrite !trace_bind, !total_sleep_app, IH.
  os_calls. split_result; reflexivity.
Qed.


Lemma kill_phase_sleep (alive : list Process) (w : W) :
  total_sleep (trace (kill_phase env alive w)) = 0.
Proof.
  destruct alive as [|proc rest]; [reflexivity|].
  unfold kill_phase, log, emit. rewrite trace_bind, total_sleep_app.
  rewrite kill_loop_sleep. reflexivity.
Qed.


(** *** The whole procedure, phase by phase *)

Lemma graceful_shutdown_trex_phases (g : Z) (processes : list Process) (w : W) :
  processes <> [] ->
  let r1 := interrupt_phase env os processes [] w in
  let r2 := wait_phase env g (value r1) (final r1) in
  let r3 := kill_phase env (value r2) (final r2) in
  trace (graceful_shutdown_trex env g os processes w)
  = Log WARNING (InitiatingShutdown (List.length processes))
      :: trace r1 ++ trace r2 ++ trace r3 ++ [Log INFO ShutdownCompleted].
Proof.
  intro Hne. destruct processes as [|proc rest]; [congruence|].
  cbn zeta. unfold graceful_shutdown_trex, log, emit, ret.
  set (processes := proc :: rest).
  rewrite !trace_bind. cbn [trace final value app].
  reflexivity.
Qed.

End Shutdown.

(** ** What the log reports about each target *)

Lemma outcomes_app (p : Z) (a b : list event) :
  outcomes p (a ++ b) = outcomes p a ++ outcomes p b.
Proof.
  induction a as [|e a IH]; [reflexivity|].
  simpl. destruct (reported_state p e); rewrite IH; reflexivity.
Qed.

Lemma NoDup_map_filter {A B} (f : A -> B) (keep : A -> bool) (l : list A) :
  NoDup (map f l) -> NoDup (map f (filter keep l)).
Proof.
  induction l as [|a l IH]; intro H; [exact H|].
  simpl in *. inversion H as [|x xs Hnotin Hrest]; subst.
  destruct (keep a); [|auto].
  simpl. constructor; [|auto].
  intro Hin. apply Hnotin. apply in_map_iff in Hin as [y [Ey Hy]].
  apply filter_In in Hy as [Hy _]. apply in_map_iff. eauto.
Qed.

Section Outcomes.

Context {W : Type} (env : Env W).
Variable os : os_name.

(** One turn of the first loop speaks of its own process only, reports
    at most one final state, and reports none when it appends. *)
Lemma signal_process_outcomes (proc : Process) (w : W) (p : Z) :
  (pid proc <> p -> outcomes p (trace (signal_process env os proc w)) = [])
  /\ (List.length (outcomes p (trace (signal_process env os proc w))) <= 1)%nat
  /\ (value (signal_process env os proc w) = true ->
      outcomes p (trace (signal_process env os proc w)) = []).
Proof.
  unfold signal_process; destruct os; os_calls;
    repeat split_result;
    destruct (pid proc =? p) eqn:E; simpl;
    repeat split; intros; try reflexivity; try discriminate; try lia;
    try (apply Z.eqb_eq in E; contradiction).
Qed.

Lemma interrupt_phase_outcomes (processes acc : list Process) (w : W) :
  NoDup (map pid (acc ++ processes)) ->
  let r := interrupt_phase env os processes acc w in
  NoDup (map pid (value r))
  /\ (forall p, (List.length (outcomes p (trace r)) <= 1)%nat)
  /\ (forall p, ~ In p (map pid processes) -> outcomes p (trace r) = [])
  /\ (forall p, In p (map pid (value r)) ->
        In p (map pid acc)
        \/ (In p (map pid processes) /\ outcomes p (trace r) = [])).
Proof.
  revert acc w; induction processes as [|proc rest IH]; intros acc w Hnd.
  - simpl. rewrite app_nil_r in Hnd. repeat split; auto.
  - cbn zeta. cbn [interrupt_phase].
    rewrite trace_bind, value_bind.
    set (r0 := signal_process env os proc w).
    set (acc' := if value r0 then acc ++ [proc] else acc).
    assert (Hnot : ~ In (pid proc) (map pid rest)).
    { rewrite map_app in Hnd. apply NoDup_app_remove_l in Hnd.
      simpl in Hnd. inversion Hnd; assumption. }
    assert (Hnd' : NoDup (map pid (acc' ++ rest))).
    { unfold acc'. destruct (value r0).
      - rewrite <- app_assoc. exact Hnd.
      - rewrite map_app in *. simpl in Hnd.
        apply NoDup_remove_1 in Hnd. exact Hnd. }
    destruct (IH acc' (final r0) Hnd') as (N & L & O & V).
    set (r := interrupt_phase env os rest acc' (final r0)) in *.
    repeat split.
    + exact N.
    + intro p. rewrite outcomes_app, length_app.
      destruct (signal_process_outcomes proc w p) as (S1 & S2 & _).
      fold r0 in S1, S2.
      destruct (Z.eq_dec (pid proc) p) as [E|E].
      * rewrite (O p); [|rewrite <- E; exact Hnot].
        cbn [List.length]. rewrite Nat.add_0_r. exact S2.
      * rewrite (S1 E). cbn [List.length]. apply L.
    + intros p Hp. rewrite outcomes_app.
      destruct (signal_process_outcomes proc w p) as (S1 & _ & _).
      fold r0 in S1. simpl in Hp.
      rewrite S1, O; auto.
    + intros p Hp. rewrite outcomes_app.
      destruct (V p Hp) as [Hacc|[Hrest Hout]].
      * unfold acc' in Hacc. destruct (value r0) eqn:Ev; [|left; exact Hacc].
        rewrite map_app in Hacc.
        apply in_app_or in Hacc as [Hacc|[Eq|[]]]; [left; exact Hacc|].
        subst p. right. split; [left; reflexivity|].
        destruct (signal_process_outcomes proc w (pid proc)) as (_ & _ & S3).
        fold r0 in S3. rewrite (S3 Ev), (O (pid proc) Hnot). reflexivity.
      * right. split; [right; exact Hrest|].
        destruct (signal_process_outcomes proc w p) as (S1 & _ & _).
        fold r0 in S1. rewrite S1, Hout; [reflexivity|].
        intro E. apply Hnot. rewrite E. exact Hrest.
Qed.







End Outcomes.


(** ** Escalation after a failed interrupt *)

Lemma actions_app (a b : list event) : actions (a ++ b) = actions a ++ actions b.
Proof. apply filter_app. Qed.

(** C6 (as amended).  What one turn of the first loop does depends on
    how the interrupt went.  Delivered: the turn sleeps the two-second
    settle delay and then checks liveness.  Failed with an exception that
    the branch for this platform handles (any exception on Unix;
    [OSError] or [AccessDenied] on Windows): the turn calls terminate on
    the same process at once, with no sleep and no second interrupt.
    Failed on Windows with anything else, a vanished process included:
    the turn does nothing more. *)
Theorem failed_interrupt_escalates_at_once :
  forall (W : Type) (env : Env W) (os : os_name) (proc : Process) (w : W),
    let sent := env_send_signal env proc (interrupt_signal os) w in
    actions (trace (signal_process env os proc w))
    = match fst sent with
      | Ok _ =>
          [SendSignal (pid proc) (interrupt_signal os);
           Sleep 2;
           IsRunning (pid proc)
                     (env_is_running env proc (env_sleep env 2 (snd sent)))]
      | Raise e =>
          if escalates os e
          then [SendSignal (pid proc) (interrupt_signal os); Terminate (pid proc)]
          else [SendSignal (pid proc) (interrupt_signal os)]
      end.
Proof.
  intros W env os proc w.
  unfold signal_process; destruct os; os_calls;
    repeat split_result; reflexivity.
Qed.

(** C6 (as stated) fails.  On Windows, when the process has vanished by
    the time the interrupt is sent, [send_signal] raises [NoSuchProcess];
    the handler of the Windows branch does not catch it, and no terminate
    follows. *)
Lemma vanished_process_is_not_terminated_on_windows :
  let w := machine ["90"] [] in
  fst (env_send_signal sim_env (miner 2) CTRL_C_EVENT w) = Raise NoSuchProcess
  /\ trace (signal_process sim_env nt (miner 2) w)
     = [Log INFO (SendingShutdownSignal 2); Log INFO (SendingCtrlC 2);
        SendSignal 2 CTRL_C_EVENT; Log INFO (AlreadyTerminated 2)]
  /\ ~ In (Terminate 2) (trace (signal_process sim_env nt (miner 2) w)).
Proof.
  cbv zeta. repeat split; try reflexivity.
  vm_compute. intros [H|[H|[H|[H|[]]]]]; discriminate.
Qed.

(** ** Leaving the countdown early *)

Section EarlyExit.

Context {W : Type} (env : Env W).
Variable os : os_name.

Lemma interrupt_phase_value_incl (processes acc : list Process) (w : W) (proc : Process) :
  In proc (value (interrupt_phase env os processes acc w)) ->
  In proc acc \/ In proc processes.
Proof.
  revert acc w; induction processes as [|a rest IH]; intros acc w H.
  - left. exact H.
  - cbn [interrupt_phase] in H. rewrite value_bind in H.
    apply IH in H as [H|H]; [|right; right; exact H].
    destruct (value (signal_process env os a w)); [|left; exact H].
    apply in_app_or in H as [H|[H|[]]]; [left; exact H|].
    right. left. exact H.
Qed.

Lemma none_running_count (procs : list Process) (w : W) :
  (forall proc, In proc procs -> env_is_running env proc w = false) ->
  value (count_running env procs w) = 0.
Proof.
  intro H. rewrite count_running_value.
  induction procs as [|a rest IH]; [reflexivity|].
  simpl. rewrite (H a (or_introl eq_refl)). apply IH.
  intros proc Hin. apply H. right. exact Hin.
Qed.

Lemma poll_exits_when_none_running (terminated : list Process) (ticks : list Z) (w : W) :
  (forall proc, In proc terminated -> env_is_running env proc w = false) ->
  total_sleep (trace (poll env terminated ticks w)) = 0
  /\ final (poll env terminated ticks w) = w.
Proof.
  intro H. destruct ticks as [|remaining later]; [split; reflexivity|].
  cbn [poll]. rewrite trace_bind, final_bind, total_sleep_app.
  rewrite count_running_sleep, count_running_final, (none_running_count _ _ H).
  split; reflexivity.
Qed.

Lemma wait_phase_skipped (g : Z) (terminated : list Process) (w : W) :
  (forall proc, In proc terminated -> env_is_running env proc w = false) ->
  total_sleep (trace (wait_phase env g terminated w)) = 0.
Proof.
  intro H. destruct terminated as [|proc rest]; [reflexivity|].
  cbn [wait_phase]. unfold log, emit, wait_procs.
  rewrite !trace_bind, !total_sleep_app.
  cbn [trace final total_sleep].
  destruct (poll_exits_when_none_running (proc :: rest) (countdown g) w H) as [E _].
  rewrite E. reflexivity.
Qed.

End EarlyExit.

(** C7.  If no target is running when the interrupt phase ends, the
    grace-period wait sleeps zero seconds, and the whole procedure sleeps
    only what the interrupt phase slept.  More generally, at whatever
    point of the countdown the tracked processes are found to be all
    gone, the countdown ends there: no sleep, the world as it was. *)
Theorem grace_wait_skipped_when_all_exited :
  forall (W : Type) (env : Env W) (os : os_name) (g : Z)
         (processes : list Process) (w : W),
    let r1 := interrupt_phase env os processes [] w in
    (forall proc, In proc processes ->
                  env_is_running env proc (final r1) = false) ->
    total_sleep (trace (wait_phase env g (value r1) (final r1))) = 0
    /\ total_sleep (trace (graceful_shutdown_trex env g os processes w))
       = total_sleep (trace r1)
    /\ forall (terminated : list Process) (ticks : list Z) (w' : W),
         (forall proc, In proc terminated ->
                       env_is_running env proc w' = false) ->
         total_sleep (trace (poll env terminated ticks w')) = 0
         /\ final (poll env terminated ticks w') = w'.
Proof.
  intros W env os g processes w r1 Hgone.
  assert (Hterm : forall proc, In proc (value r1) ->
                               env_is_running env proc (final r1) = false).
  { intros proc Hin. apply Hgone.
    apply interrupt_phase_value_incl in Hin as [[]|Hin]. exact Hin. }
  assert (S2 : total_sleep (trace (wait_phase env g (value r1) (final r1))) = 0)
    by (apply wait_phase_skipped; exact Hterm).
  repeat split.
  - exact S2.
  - assert (D : processes = [] \/ processes <> [])
      by (destruct processes; [left; reflexivity|right; discriminate]).
    destruct D as [E|Hne].
    + unfold r1. rewrite E. reflexivity.
    + rewrite (graceful_shutdown_trex_phases env os g processes w Hne).
      fold r1. cbn [total_sleep].
      rewrite !total_sleep_app, S2, kill_phase_sleep.
      cbn [total_sleep]. lia.
  - apply poll_exits_when_none_running; assumption.
  - apply poll_exits_when_none_running; assumption.
Qed.

Lemma grace_wait_skipped_when_all_exited_witness :
  let processes := [miner 1; miner 2] in
  let w := machine ["90"] [obedient 1; obedient 2] in
  total_sleep
    (trace (wait_phase sim_env 30
              (value (interrupt_phase sim_env posix processes [] w))
              (final (interrupt_phase sim_env posix processes [] w)))) = 0
  /\ total_sleep (trace (graceful_shutdown_trex sim_env 30 posix processes w)) = 4.
Proof.
  cbv zeta.
  destruct (grace_wait_skipped_when_all_exited sim sim_env posix 30
              [miner 1; miner 2] (machine ["90"] [obedient 1; obedient 2]))
    as (H1 & H2 & _).
  - intros proc [E|[E|[]]]; subst proc; reflexivity.
  - split; [exact H1|]. rewrite H2. reflexivity.
Defined.

(** ** The loop acts on hot readings only *)

Section Tick.

Context {W : Type} (env : Env W).

Lemma get_gpu_temperature_leaves_processes_alone (w : W) :
  existsb touches_processes (trace (get_gpu_temperature env w)) = false.
Proof.
  unfold get_gpu_temperature, run_nvidia_smi. rewrite trace_bind.
  destruct (env_nvidia_smi env w) as [[res|e] w']; cbn [trace value final].
  - destruct (returncode res =? 0); [|reflexivity].
    destruct (collect_temps _ _) as [[|t ts]|e]; reflexivity.
  - destruct e; reflexivity.
Qed.

Lemma find_trex_processes_enumerates (names : list string) (w : W) :
  exists rest, trace (find_trex_processes env names w) = ProcessIter :: rest.
Proof.
  unfold find_trex_processes, process_iter. rewrite trace_bind.
  destruct (env_process_iter env w) as [ps w']. cbn [trace app].
  eexists. reflexivity.
Qed.

End Tick.

(** C2.  One turn of the loop first samples the temperature, which
    never touches the process table.  The rest of the turn touches it
    exactly when the sample is a number at or above the threshold, and
    then starts by enumerating the processes; when the sample is
    unavailable the turn only logs a warning and sleeps the check
    interval, and when it is below the threshold the turn only logs the
    reading and sleeps the check interval. *)
Theorem run_tick_acts_only_on_hot_reading :
  forall (W : Type) (env : Env W) (temp_threshold : Q)
         (check_interval grace_period : Z) (names : list string)
         (os : os_name) (w : W),
    let sample := get_gpu_temperature env w in
    let tick := run_tick env temp_threshold check_interval grace_period names os w in
    existsb touches_processes (trace sample) = false
    /\ existsb touches_processes (trace tick)
       = match value sample with
         | Some current_temp => Qle_bool temp_threshold current_temp
         | None => false
         end
    /\ match value sample with
       | None =>
           trace tick
           = trace sample ++ [Log WARNING CouldNotReadSkipping; Sleep check_interval]
       | Some current_temp =>
           if Qle_bool temp_threshold current_temp then
             exists rest,
               trace tick
               = trace sample
                 ++ [Log DEBUG (CurrentTemperature current_temp);
                     Log CRITICAL (TemperatureExceeds current_temp temp_threshold);
                     ProcessIter] ++ rest
           else
             trace tick
             = trace sample
               ++ [Log DEBUG (CurrentTemperature current_temp); Sleep check_interval]
       end.
Proof.
  intros W env thr ci g names os w sample tick.
  pose proof (get_gpu_temperature_leaves_processes_alone env w) as Hs.
  fold sample in Hs.
  assert (T : match value sample with
              | None =>
                  trace tick
                  = trace sample ++ [Log WARNING CouldNotReadSkipping; Sleep ci]
              | Some t =>
                  if Qle_bool thr t then
                    exists rest,
                      trace tick
                      = trace sample
                        ++ [Log DEBUG (CurrentTemperature t);
                            Log CRITICAL (TemperatureExceeds t thr);
                            ProcessIter] ++ rest
                  else
                    trace tick
                    = trace sample ++ [Log DEBUG (CurrentTemperature t); Sleep ci]
              end).
  { unfold tick, run_tick. rewrite trace_bind. fold sample.
    destruct (value sample) as [t|].
    - unfold log, emit. rewrite trace_bind. cbn [trace final app].
      destruct (Qle_bool thr t).
      + rewrite !trace_bind. cbn [trace final app].
        destruct (find_trex_processes_enumerates env names (final sample))
          as [rest E].
        rewrite E. eexists. cbn [app]. reflexivity.
      + reflexivity.
    - reflexivity. }
  split; [exact Hs|]. split; [|exact T].
  destruct (value sample) as [t|].
  - destruct (Qle_bool thr t).
    + destruct T as [rest E]. rewrite E.
      rewrite !existsb_app. cbn [existsb touches_processes].
      rewrite !orb_true_r. reflexivity.
    + rewrite T, existsb_app, Hs. reflexivity.
  - rewrite T, existsb_app, Hs. reflexivity.
Qed.

(** ** Reading the sensor output *)

Lemma collect_temps_raises (lines : list string) (temps : list Q) (line : string) :
  In line lines -> line_kept line = true -> float_of_str (strip line) = None ->
  exists e, collect_temps lines temps = Raise e.
Proof.
  revert temps; induction lines as [|l rest IH]; intros temps Hin Hk Hf;
    [contradiction|].
  cbn [collect_temps]. destruct Hin as [E|Hin].
  - subst l. unfold line_kept in Hk. rewrite Hk, Hf. eauto.
  - destruct (str_truthy (strip l) && isdigit (remove_dots (strip l))).
    + destruct (float_of_str (strip l)); eauto.
    + eauto.
Qed.

Lemma collect_temps_parses (lines : list string) (temps : list Q) :
  (forall line, In line lines -> line_kept line = true ->
                float_of_str (strip line) <> None) ->
  collect_temps lines temps = Ok (temps ++ parsed_values lines).
Proof.
  revert temps; induction lines as [|l rest IH]; intros temps H.
  - simpl. rewrite app_nil_r. reflexivity.
  - cbn [collect_temps parsed_values flat_map].
    pose proof (H l (or_introl eq_refl)) as Hl. unfold line_kept in *.
    destruct (str_truthy (strip l) && isdigit (remove_dots (strip l))).
    + destruct (float_of_str (strip l)) as [t|]; [|exfalso; apply Hl; reflexivity].
      rewrite IH; [|intros; apply H; [right|]; assumption].
      rewrite <- app_assoc. reflexivity.
    + rewrite IH; [|intros; apply H; [right|]; assumption].
      reflexivity.
Qed.

(** [max_float] returns an element of the list that no element exceeds. *)
Lemma max_float_is_maximum (t : Q) (ts : list Q) :
  In (max_float t ts) (t :: ts)
  /\ forall x, In x (t :: ts) -> (x <= max_float t ts)%Q.
Proof.
  unfold max_float. revert t; induction ts as [|a ts IH]; intro t.
  - simpl. split; [left; reflexivity|]. intros x [E|[]]. subst. apply Qle_refl.
  - cbn [fold_left]. destruct (Qlt_le_dec t a) as [L|L].
    + destruct (IH a) as [I M]. split.
      * right. exact I.
      * intros x [E|Hx]; [subst x|apply M, Hx].
        apply Qle_trans with a; [apply Qlt_le_weak, L|apply M; left; reflexivity].
    + destruct (IH t) as [I M]. split.
      * destruct I as [E|I]; [left; exact E|right; right; exact I].
      * intros x [E|[E|Hx]].
        -- subst x. apply M. left. reflexivity.
        -- subst x. apply Qle_trans with t; [exact L|apply M; left; reflexivity].
        -- apply M. right. exact Hx.
Qed.

(** On an output whose kept lines all parse, the reading is what the
    description says: the maximum of the parsed values, unavailable when
    there is none. *)
Lemma get_gpu_temperature_on_clean_output
      {W : Type} (env : Env W) (w w' : W) (out err : string) :
  env_nvidia_smi env w = (Ok (mkCompleted 0 out err), w') ->
  (forall line, In line (split newline (strip out)) -> line_kept line = true ->
                float_of_str (strip line) <> None) ->
  value (get_gpu_temperature env w)
  = match parsed_values (split newline (strip out)) with
    | t :: ts => Some (max_float t ts)
    | [] => None
    end.
Proof.
  intros E H. unfold get_gpu_temperature, run_nvidia_smi.
  rewrite value_bind, E. cbn [value final returncode stdout Z.eqb].
  rewrite (collect_temps_parses _ [] H). cbn [app].
  destruct (parsed_values _); reflexivity.
Qed.

(** One kept line that [float] rejects makes the whole reading
    unavailable, whatever the other lines hold. *)
Lemma get_gpu_temperature_on_rejected_line
      {W : Type} (env : Env W) (w w' : W) (out err line : string) :
  env_nvidia_smi env w = (Ok (mkCompleted 0 out err), w') ->
  In line (split newline (strip out)) -> line_kept line = true ->
  float_of_str (strip line) = None ->
  value (get_gpu_temperature env w) = None.
Proof.
  intros E Hin Hk Hf. unfold get_gpu_temperature, run_nvidia_smi.
  rewrite value_bind, E. cbn [value final returncode stdout Z.eqb].
  destruct (collect_temps_raises _ [] line Hin Hk Hf) as [e Er].
  rewrite Er. reflexivity.
Qed.

(** C3 (the code at the failing input).  The sensor prints 65 for one
    device and 1.2.3 for another.  Alone, the first line reads as 65, and
    so it does next to a line such as N/A, which the guard drops.  But
    1.2.3 passes the guard (digits once the dots are removed) and [float]
    rejects it: the reading is unavailable. *)
Theorem malformed_line_invalidates_reading :
  value (get_gpu_temperature sim_env (machine ["65"] [])) = Some 65%Q
  /\ value (get_gpu_temperature sim_env (machine ["65"; "N/A"] [])) = Some 65%Q
  /\ line_kept "1.2.3" = true
  /\ float_of_str "1.2.3" = None
  /\ value (get_gpu_temperature sim_env (machine ["65"; "1.2.3"] [])) = None
  /\ trace (get_gpu_temperature sim_env (machine ["65"; "1.2.3"] []))
     = [RunNvidiaSmi; Log ERROR (ErrorGettingTemperature ValueError)].
Proof. repeat split; vm_compute; reflexivity. Qed.

(** ** Which processes the enumeration selects *)

Section Matcher.

Context {W : Type} (env : Env W).
Variable names : list string.

Lemma find_loop_value (procs acc : list Process) (w : W) :
  value (find_loop names procs acc w)
  = acc ++ filter (selected names) (named_prefix procs).
Proof.
  revert acc w; induction procs as [|proc rest IH]; intros acc w.
  - simpl. rewrite app_nil_r. reflexivity.
  - cbn [find_loop named_prefix].
    destruct (info_name proc) as [name|] eqn:En.
    + cbn [filter]. unfold selected at 1. rewrite En.
      destruct (name_matches names (lower name)); cbn [orb].
      * unfold log, emit. rewrite value_bind, IH, <- app_assoc. reflexivity.
      * destruct (cmdline_matches (cmdline_of proc)).
        -- unfold log, emit. rewrite value_bind, IH, <- app_assoc. reflexivity.
        -- apply IH.
    + simpl. rewrite app_nil_r. reflexivity.
Qed.

Lemma find_trex_processes_value (w : W) :
  value (find_trex_processes env names w)
  = filter (selected names) (named_prefix (fst (env_process_iter env w))).
Proof.
  unfold find_trex_processes, process_iter. rewrite value_bind.
  destruct (env_process_iter env w) as [ps w']. cbn [value final fst].
  apply find_loop_value.
Qed.

Lemma named_prefix_app (before after : list Process) (proc : Process) :
  (forall q, In q before -> info_name q <> None) ->
  info_name proc <> None ->
  In proc (named_prefix (before ++ proc :: after)).
Proof.
  induction before as [|b before IH]; intros Hb Hp.
  - simpl. destruct (info_name proc); [left; reflexivity|congruence].
  - simpl. pose proof (Hb b (or_introl eq_refl)) as Hn.
    destruct (info_name b); [|congruence].
    right. apply IH; [|exact Hp]. intros q Hq. apply Hb. right. exact Hq.
Qed.

Lemma named_prefix_named (procs : list Process) (proc : Process) :
  In proc (named_prefix procs) -> info_name proc <> None.
Proof.
  induction procs as [|a rest IH]; [intros []|].
  simpl. destruct (info_name a) eqn:Ea; [|intros []].
  intros [E|H]; [subst a; congruence|auto].
Qed.

End Matcher.

Lemma name_matches_spec (names : list string) (process_name : string) :
  name_matches names process_name = true
  <-> exists trex_name,
        In trex_name names /\ contains (lower trex_name) process_name = true.
Proof. unfold name_matches. apply existsb_exists. Qed.

Lemma name_matches_lowered (names : list string) (process_name : string) :
  name_matches names process_name
  = existsb (fun t => contains t process_name) (map lower names).
Proof.
  unfold name_matches. induction names as [|n names IH]; [reflexivity|].
  simpl. rewrite IH. reflexivity.
Qed.

Lemma starts_with_spec (p s : string) :
  starts_with p s = true <-> exists post, s = (p ++ post)%string.
Proof.
  revert s; induction p as [|a p IH]; intro s.
  - split; [intros _; exists s; reflexivity|reflexivity].
  - destruct s as [|b s]; cbn [starts_with String.append].
    + split; [discriminate|intros [post E]; discriminate].
    + rewrite andb_true_iff, IH. split.
      * intros [Eab [post E]]. apply Ascii.eqb_eq in Eab. subst.
        exists post. reflexivity.
      * intros [post E]. injection E as -> ->.
        split; [apply Ascii.eqb_refl|exists post; reflexivity].
Qed.

Lemma contains_spec (needle hay : string) :
  contains needle hay = true
  <-> exists pre post, hay = (pre ++ needle ++ post)%string.
Proof.
  induction hay as [|c hay IH].
  - cbn [contains]. rewrite orb_false_r, starts_with_spec. split.
    + intros [post E]. exists EmptyString, post. exact E.
    + intros [pre [post E]]. destruct pre; [exists post; exact E|discriminate].
  - cbn [contains]. rewrite orb_true_iff, starts_with_spec, IH. split.
    + intros [[post E]|[pre [post E]]].
      * exists EmptyString, post. exact E.
      * exists (String c pre), post. rewrite E. reflexivity.
    + intros [pre [post E]]. destruct pre as [|a pre].
      * left. exists post. exact E.
      * right. injection E as -> ->. exists pre, post. reflexivity.
Qed.

(** C4 (as amended).  With no target name configured, no process is
    selected by its name; the enumeration still returns the processes
    whose lower-cased command line contains "t-rex" or "trex" (among
    those it gets to see before a process without a name ends the
    loop). *)
Theorem find_trex_processes_without_names :
  forall (W : Type) (env : Env W) (w : W),
    (forall process_name, name_matches [] process_name = false)
    /\ value (find_trex_processes env [] w)
       = filter (fun proc => cmdline_matches (cmdline_of proc))
                (named_prefix (fst (env_process_iter env w))).
Proof.
  intros W env w. split; [reflexivity|].
  rewrite find_trex_processes_value. apply filter_ext_in.
  intros proc Hin. apply named_prefix_named in Hin.
  unfold selected. destruct (info_name proc); [reflexivity|congruence].
Qed.

(** C4 (as stated) fails.  With an empty list of target names, the
    enumeration returns the monitoring script, selected by its command
    line. *)
Lemma empty_names_still_match_by_cmdline :
  let w := machine ["90"] [mkSimProc monitor_script None Ignores Ignores Ignores] in
  value (find_trex_processes sim_env [] w) = [monitor_script]
  /\ value (find_trex_processes sim_env [] w) <> [].
Proof. cbv zeta. split; [vm_compute; reflexivity|vm_compute; discriminate]. Qed.

(** C8.  A process is selected as soon as the lower-cased form of some
    configured name occurs in its lower-cased display name (provided the
    loop reaches it: every process enumerated before it has a name).
    Only the lower-cased forms count: two name lists, and two display
    names, that agree once lower-cased give the same test.  The name
    test is containment and nothing else: it holds exactly when the
    process name is a prefix, the lower-cased form of a configured name,
    and a suffix; a name that contains no configured name fails it.  And
    every process returned has a name and passed the name test or the
    command-line test. *)
Theorem name_match_is_case_insensitive_containment :
  forall (W : Type) (env : Env W) (names : list string) (w : W)
         (before after : list Process) (proc : Process)
         (name trex_name : string),
    fst (env_process_iter env w) = before ++ proc :: after ->
    (forall q, In q before -> info_name q <> None) ->
    info_name proc = Some name ->
    In trex_name names ->
    contains (lower trex_name) (lower name) = true ->
    In proc (value (find_trex_processes env names w))
    /\ (forall (names' : list string) (name' : string),
          map lower names' = map lower names ->
          lower name' = lower name ->
          name_matches names' (lower name') = true)
    /\ (forall process_name,
          name_matches names process_name = true
          <-> exists configured pre post,
                In configured names
                /\ process_name = (pre ++ lower configured ++ post)%string)
    /\ (forall q, In q (value (find_trex_processes env names w)) ->
          exists display_name,
            info_name q = Some display_name
            /\ (name_matches names (lower display_name) = true
                \/ cmdline_matches (cmdline_of q) = true)).
Proof.
  intros W env names w before after proc name trex_name Henum Hbefore Hname
         Hin Hsub.
  assert (Hm : name_matches names (lower name) = true).
  { apply name_matches_spec. exists trex_name. split; assumption. }
  split; [|split; [|split]].
  - rewrite find_trex_processes_value, Henum. apply filter_In. split.
    + apply named_prefix_app; [exact Hbefore|congruence].
    + unfold selected. rewrite Hname, Hm. reflexivity.
  - intros names' name' En El.
    rewrite name_matches_lowered, En, El, <- name_matches_lowered. exact Hm.
  - intro process_name. rewrite name_matches_spec. split.
    + intros (t & Ht & Hc). apply contains_spec in Hc as (pre & post & E).
      exists t, pre, post. split; assumption.
    + intros (t & pre & post & Ht & E). exists t. split; [exact Ht|].
      apply contains_spec. exists pre, post. exact E.
  - intros q Hq. rewrite find_trex_processes_value in Hq.
    apply filter_In in Hq as [_ Hsel]. unfold selected in Hsel.
    destruct (info_name q) as [display_name|]; [|discriminate].
    exists display_name. split; [reflexivity|].
    apply orb_true_iff in Hsel. exact Hsel.
Qed.

Lemma name_match_is_case_insensitive_containment_witness :
  let w := machine ["90"] [stubborn 1; mkSimProc trex_exe None Ignores Ignores Ignores] in
  In trex_exe (value (find_trex_processes sim_env ["t-rex"] w))
  /\ name_matches ["T-REX"] (lower "t-rex.exe") = true.
Proof.
  cbv zeta.
  destruct (name_match_is_case_insensitive_containment sim sim_env ["t-rex"]
              (machine ["90"] [stubborn 1; mkSimProc trex_exe None Ignores Ignores Ignores])
              [miner 1] [] trex_exe "T-Rex.EXE" "t-rex") as (H1 & H2 & _).
  - reflexivity.
  - intros q [E|[]]. subst q. discriminate.
  - reflexivity.
  - left. reflexivity.
  - reflexivity.
  - split; [exact H1|]. apply (H2 ["T-REX"] "t-rex.exe"); reflexivity.
Defined.

(** ** The configuration file *)

Lemma set_field_ok (c : Config) (key : string) (v : json) :
  is_field key = true -> exists c', set_field c key v = Ok c'.
Proof.
  unfold is_field, set_field. cbn [existsb].
  rewrite orb_false_r.
  destruct (key =? "temp_threshold")%string; [eauto|].
  destruct (key =? "check_interval")%string; [eauto|].
  destruct (key =? "grace_period")%string; [eauto|].
  destruct (key =? "trex_process_names")%string; [eauto|].
  destruct (key =? "log_level")%string; [eauto|].
  discriminate.
Qed.

Lemma set_field_raises (c : Config) (key : string) (v : json) :
  is_field key = false -> set_field c key v = Raise TypeError.
Proof.
  unfold is_field, set_field. cbn [existsb].
  rewrite orb_false_r.
  destruct (key =? "temp_threshold")%string; [discriminate|].
  destruct (key =? "check_interval")%string; [discriminate|].
  destruct (key =? "grace_period")%string; [discriminate|].
  destruct (key =? "trex_process_names")%string; [discriminate|].
  destruct (key =? "log_level")%string; [discriminate|].
  reflexivity.
Qed.

Lemma set_fields_raises (c : Config) (members : list (string * json)) :
  forallb (fun kv => is_field (fst kv)) members = false ->
  set_fields c members = Raise TypeError.
Proof.
  revert c; induction members as [|[key v] rest IH]; intros c H;
    [discriminate|].
  cbn [set_fields forallb fst] in *.
  destruct (is_field key) eqn:Ek.
  - destruct (set_field_ok c key v Ek) as [c' E]. rewrite E.
    apply IH. exact H.
  - rewrite (set_field_raises c key v Ek). reflexivity.
Qed.

Lemma set_fields_ok (c : Config) (members : list (string * json)) :
  forallb (fun kv => is_field (fst kv)) members = true ->
  exists c', set_fields c members = Ok c'.
Proof.
  revert c; induction members as [|[key v] rest IH]; intros c H; [simpl; eauto|].
  cbn [set_fields forallb fst] in *.
  apply andb_true_iff in H as [Hk Hr].
  destruct (set_field_ok c key v Hk) as [c' E]. rewrite E. apply IH, Hr.
Qed.

(** The files [malformed] names are exactly those on which loading
    reports an error. *)
Lemma load_config_reports_error_iff_malformed
      (fs : filesystem) (config_file : string) (f : file) :
  files fs config_file = Some f ->
  (malformed f = true <-> snd (load_config fs config_file) <> []).
Proof.
  intro E. unfold load_config. rewrite E.
  destruct f as [| |doc]; cbn [malformed].
  - split; [discriminate|reflexivity].
  - split; [discriminate|reflexivity].
  - destruct doc; cbn [Config_of];
      try (split; [discriminate|reflexivity]).
    destruct (forallb (fun kv => is_field (fst kv)) members) eqn:F.
    + destruct (set_fields_ok Config_defaults members F) as [c Ec].
      rewrite Ec. cbn [negb snd]. split; [discriminate|congruence].
    + rewrite (set_fields_raises Config_defaults members F).
      cbn [negb snd]. split; [discriminate|reflexivity].
Qed.

(** C9.  The defaults are threshold 85.0, check interval 10, grace
    period 30, the four T-Rex names, log level INFO.  Loading a missing
    file returns them; loading a malformed file returns them; the
    document that [save_default_config] writes has exactly the five
    fields, each with its default value, so it decodes to the defaults
    and loading a file it has just written returns them too. *)
Theorem load_config_falls_back_to_defaults :
  forall (fs : filesystem) (config_file : string),
    Config_defaults
    = mkConfig (JFloat 85) (JInt 10) (JInt 30)
        (JArray [JString "t-rex.exe"; JString "trex.exe";
                 JString "t-rex"; JString "trex"])
        (JString "INFO")
    /\ (files fs config_file = None ->
        fst (load_config fs config_file) = Config_defaults)
    /\ (forall f, files fs config_file = Some f -> malformed f = true ->
        fst (load_config fs config_file) = Config_defaults)
    /\ default_config
       = JObject [("temp_threshold", temp_threshold Config_defaults);
                  ("check_interval", check_interval Config_defaults);
                  ("grace_period", grace_period Config_defaults);
                  ("trex_process_names", trex_process_names Config_defaults);
                  ("log_level", log_level Config_defaults)]
    /\ Config_of default_config = Ok Config_defaults
    /\ (writes fs config_file = Written ->
        files (fst (save_default_config fs config_file)) config_file
        = Some (Document default_config)
        /\ load_config (fst (save_default_config fs config_file)) config_file
           = (Config_defaults, [])).
Proof.
  intros fs config_file. split; [reflexivity|].
  split; [|split; [|split; [|split]]].
  - intro E. unfold load_config. rewrite E. reflexivity.
  - intros f E Hm. unfold load_config. rewrite E.
    destruct f as [| |doc]; [reflexivity|reflexivity|].
    destruct doc; try reflexivity.
    cbn [malformed] in Hm. apply negb_true_iff in Hm.
    cbn [Config_of]. rewrite (set_fields_raises _ _ Hm). reflexivity.
  - reflexivity.
  - reflexivity.
  - intro Hw. unfold save_default_config. rewrite Hw. cbn [fst].
    assert (F : files (write_file fs config_file (Document default_config))
                      config_file = Some (Document default_config)).
    { unfold write_file. cbn [files]. rewrite String.eqb_refl. reflexivity. }
    split; [exact F|].
    unfold load_config. rewrite F. reflexivity.
Qed.

Lemma load_config_falls_back_to_defaults_witness :
  fst (load_config disk "missing.json") = Config_defaults
  /\ fst (load_config disk "broken.json") = Config_defaults
  /\ load_config (fst (save_default_config disk "gpu_watchdog_config.json"))
                 "gpu_watchdog_config.json"
     = (Config_defaults, []).
Proof.
  split; [|split].
  - destruct (load_config_falls_back_to_defaults disk "missing.json")
      as (_ & H & _).
    apply H. reflexivity.
  - destruct (load_config_falls_back_to_defaults disk "broken.json")
      as (_ & _ & H & _).
    apply (H NotJson); reflexivity.
  - destruct (load_config_falls_back_to_defaults disk "gpu_watchdog_config.json")
      as (_ & _ & _ & _ & _ & H).
    apply H. reflexivity.
Defined.

(** ** The dry run *)

(** C10.  In a dry run, a reading that was sampled and is zero is
    printed as a temperature that could not be read: after the header
    and the sampling, the only line is the could-not-read one. *)
Theorem dry_run_reports_zero_as_unreadable :
  forall (W : Type) (env : Env W) (temp_threshold : Q) (names : list string)
         (w : W) (t : Q),
    value (get_gpu_temperature env w) = Some t ->
    (t == 0)%Q ->
    trace (dry_run env temp_threshold names w)
    = Print DryRunHeader
        :: trace (get_gpu_temperature env w) ++ [Print CouldNotReadLine].
Proof.
  intros W env thr names w t Ht Hz.
  unfold dry_run, print, emit. rewrite !trace_bind. cbn [trace final app].
  rewrite Ht. unfold temp_truthy.
  apply Qeq_bool_iff in Hz. rewrite Hz. reflexivity.
Qed.

Lemma dry_run_reports_zero_as_unreadable_witness :
  value (get_gpu_temperature sim_env (machine ["0"] [stubborn 1])) = Some 0%Q
  /\ trace (dry_run sim_env 85 ["t-rex"] (machine ["0"] [stubborn 1]))
     = [Print DryRunHeader; RunNvidiaSmi;
        Log DEBUG (GpuTemperatures [0%Q] 0); Print CouldNotReadLine].
Proof.
  split; [reflexivity|].
  rewrite (dry_run_reports_zero_as_unreadable sim sim_env 85 ["t-rex"]
             (machine ["0"] [stubborn 1]) 0%Q).
  - reflexivity.
  - reflexivity.
  - reflexivity.
Defined.

(** * Further properties of the code *)

(** ** Parsing a temperature line *)

Lemma digit_is_not_dot (c : ascii) :
  is_digit c = true -> Ascii.eqb c "."%char = false.
Proof.
  intro H. destruct (Ascii.eqb_spec c "."%char) as [E|E]; [|reflexivity].
  subst c. discriminate H.
Qed.

Lemma digit_value_nonneg (c : ascii) : is_digit c = true -> 0 <= digit_value c.
Proof.
  unfold is_digit, digit_value. intro H.
  apply andb_true_iff in H as [H _]. apply Nat.leb_le in H. lia.
Qed.

Lemma digits_value_nonneg (s : string) (acc : Z) :
  all_digits s = true -> 0 <= acc -> 0 <= digits_value acc s.
Proof.
  revert acc; induction s as [|c s IH]; intros acc H Hacc; [exact Hacc|].
  cbn [all_digits digits_value] in *. apply andb_true_iff in H as [Hc Hs].
  apply IH; [exact Hs|]. pose proof (digit_value_nonneg c Hc). lia.
Qed.

Lemma all_digits_app (a b : string) :
  all_digits (a ++ b)%string = all_digits a && all_digits b.
Proof.
  induction a as [|c a IH]; [reflexivity|].
  cbn [String.append all_digits]. rewrite IH, andb_assoc. reflexivity.
Qed.

Lemma span_digits_all (s : string) : all_digits (fst (span_digits s)) = true.
Proof.
  induction s as [|c s IH]; [reflexivity|].
  cbn [span_digits]. destruct (is_digit c) eqn:Ec; [|reflexivity].
  destruct (span_digits s) as [d r]. cbn [fst all_digits] in *.
  rewrite Ec, IH. reflexivity.
Qed.

Lemma decimal_nonneg (ip fp : string) :
  all_digits ip = true -> all_digits fp = true -> (0 <= decimal ip fp)%Q.
Proof.
  intros Hi Hf. unfold decimal. rewrite Qred_correct.
  unfold Qle. cbn [Qnum Qden]. rewrite Z.mul_1_r, Z.mul_0_l.
  apply digits_value_nonneg; [|lia].
  rewrite all_digits_app, Hi, Hf. reflexivity.
Qed.

Lemma float_of_str_nonneg (s : string) (t : Q) :
  float_of_str s = Some t -> (0 <= t)%Q.
Proof.
  unfold float_of_str. pose proof (span_digits_all s) as Hip.
  destruct (span_digits s) as [ip rest]. cbn [fst] in Hip.
  destruct rest as [|c fp].
  - destruct (str_truthy ip); [|discriminate].
    intro E. injection E as <-. apply decimal_nonneg; [exact Hip|reflexivity].
  - destruct (Ascii.eqb c "."%char); [|discriminate].
    destruct (all_digits fp) eqn:Hfp; [|discriminate].
    cbn [andb]. destruct (str_truthy ip || str_truthy fp); [|discriminate].
    intro E. injection E as <-. apply decimal_nonneg; assumption.
Qed.

(** A string of digits and dots, cut at its first dot. *)
Lemma span_digits_dotted (s : string) :
  all_digits (remove_dots s) = true ->
  match span_digits s with
  | (ip, EmptyString) => count_dots s = O /\ remove_dots s = ip
  | (ip, String c fp) =>
      c = "."%char
      /\ count_dots s = S (count_dots fp)
      /\ remove_dots s = (ip ++ remove_dots fp)%string
      /\ all_digits (remove_dots fp) = true
  end.
Proof.
  induction s as [|c s IH]; intro H; [split; reflexivity|].
  cbn [span_digits]. destruct (is_digit c) eqn:Ec.
  - cbn [remove_dots count_dots] in *. rewrite (digit_is_not_dot c Ec) in *.
    cbn [all_digits] in H. apply andb_true_iff in H as [_ H].
    specialize (IH H). destruct (span_digits s) as [ip rest].
    destruct rest as [|c' fp].
    + destruct IH as [D R]. rewrite D, R. split; reflexivity.
    + destruct IH as (E & D & R & A). rewrite D, R.
      repeat split; assumption.
  - cbn [remove_dots count_dots] in *.
    destruct (Ascii.eqb_spec c "."%char) as [E|E].
    + subst c. repeat split; assumption.
    + cbn [all_digits] in H. rewrite Ec in H. discriminate.
Qed.

Lemma dotless_digits (s : string) :
  all_digits (remove_dots s) = true ->
  (all_digits s = true <-> count_dots s = O).
Proof.
  induction s as [|c s IH]; intro H; [split; reflexivity|].
  cbn [remove_dots count_dots all_digits] in *.
  destruct (Ascii.eqb_spec c "."%char) as [E|E].
  - subst c. change (is_digit "."%char) with false.
    cbn [andb Nat.add]. split; discriminate.
  - cbn [all_digits] in H. apply andb_true_iff in H as [Hc Hs].
    rewrite Hc. cbn [andb Nat.add]. apply IH, Hs.
Qed.

Lemma remove_dots_dotless (s : string) : count_dots s = O -> remove_dots s = s.
Proof.
  induction s as [|c s IH]; [reflexivity|].
  cbn [count_dots remove_dots]. destruct (Ascii.eqb c "."%char); [discriminate|].
  cbn [Nat.add]. intro H. rewrite (IH H). reflexivity.
Qed.

Lemma str_truthy_app (a b : string) :
  str_truthy (a ++ b)%string = str_truthy a || str_truthy b.
Proof. destruct a; [destruct b|]; reflexivity. Qed.

Lemma isdigit_split (s : string) :
  isdigit s = str_truthy s && all_digits s.
Proof. destruct s; reflexivity. Qed.

(** On a string that passes the guard, [float] fails exactly when there
    are two dots or more. *)
Lemma float_of_str_fails_iff_two_dots (s : string) :
  isdigit (remove_dots s) = true ->
  (float_of_str s = None <-> (2 <= count_dots s)%nat).
Proof.
  rewrite isdigit_split. intro H. apply andb_true_iff in H as [Hne Hall].
  pose proof (span_digits_dotted s Hall) as Hs.
  unfold float_of_str. destruct (span_digits s) as [ip rest].
  destruct rest as [|c fp].
  - destruct Hs as [D R]. rewrite R in Hne. rewrite Hne, D.
    split; [discriminate|lia].
  - destruct Hs as (E & D & R & A). subst c. rewrite Ascii.eqb_refl, D.
    cbn [andb]. pose proof (dotless_digits fp A) as Hfp.
    destruct (all_digits fp) eqn:Efp.
    + assert (Z0 : count_dots fp = O) by (apply Hfp; reflexivity).
      rewrite R, (remove_dots_dotless fp Z0), str_truthy_app in Hne.
      rewrite Hne, Z0. split; [discriminate|lia].
    + cbn [andb]. split; [intros _|reflexivity].
      destruct (count_dots fp) eqn:Ecd; [|lia].
      destruct Hfp as [_ Hfp]. discriminate (Hfp eq_refl).
Qed.

(** ** What a reading is *)

Lemma collect_temps_result (lines : list string) (temps : list Q) :
  match collect_temps lines temps with
  | Ok found =>
      found = temps ++ parsed_values lines
      /\ forall line, In line lines -> line_kept line = true ->
                      float_of_str (strip line) <> None
  | Raise _ =>
      exists line, In line lines /\ line_kept line = true
                   /\ float_of_str (strip line) = None
  end.
Proof.
  revert temps; induction lines as [|l rest IH]; intro temps.
  - simpl. rewrite app_nil_r. split; [reflexivity|intros line []].
  - cbn [collect_temps parsed_values flat_map]. fold (parsed_values rest).
    unfold line_kept at 1.
    destruct (str_truthy (strip l) && isdigit (remove_dots (strip l))) eqn:K.
    + destruct (float_of_str (strip l)) as [t|] eqn:F.
      * specialize (IH (temps ++ [t])).
        destruct (collect_temps rest (temps ++ [t])) as [found|e].
        -- destruct IH as [E P]. split; [rewrite E, <- app_assoc; reflexivity|].
           intros line [<-|Hin] Hk; [congruence|apply P; assumption].
        -- destruct IH as (line & Hin & Hk & Hf).
           exists line. repeat split; [right|..]; assumption.
      * exists l. repeat split; [left; reflexivity|exact K|exact F].
    + specialize (IH temps). destruct (collect_temps rest temps) as [found|e].
      * destruct IH as [E P]. split; [exact E|].
        intros line [<-|Hin] Hk; [unfold line_kept in Hk; congruence|].
        apply P; assumption.
      * destruct IH as (line & Hin & Hk & Hf).
        exists line. repeat split; [right|..]; assumption.
Qed.

Lemma parsed_values_in (lines : list string) (x : Q) :
  In x (parsed_values lines) ->
  exists line, In line lines /\ line_kept line = true
               /\ float_of_str (strip line) = Some x.
Proof.
  unfold parsed_values. intro H. apply in_flat_map in H as (line & Hin & Hx).
  exists line. destruct (line_kept line); [|contradiction].
  destruct (float_of_str (strip line)) as [t|]; [|contradiction].
  destruct Hx as [<-|[]]. repeat split; assumption.
Qed.

Lemma parsed_values_nil (lines : list string) :
  (forall line, In line lines -> line_kept line = true ->
                float_of_str (strip line) <> None) ->
  (parsed_values lines = [] <->
   forall line, In line lines -> line_kept line = false).
Proof.
  intro P. induction lines as [|l rest IH].
  - split; [intros _ line []|reflexivity].
  - cbn [parsed_values flat_map]. fold (parsed_values rest).
    assert (P' : forall line, In line rest -> line_kept line = true ->
                              float_of_str (strip line) <> None)
      by (intros; apply P; [right|]; assumption).
    specialize (IH P'). pose proof (P l (or_introl eq_refl)) as Pl.
    destruct (line_kept l) eqn:K.
    + destruct (float_of_str (strip l)) as [t|]; [|exfalso; apply Pl; reflexivity].
      split; [discriminate|]. intro H. specialize (H l (or_introl eq_refl)).
      congruence.
    + cbn [app]. rewrite IH. split.
      * intros H line [<-|Hin]; [exact K|apply H, Hin].
      * intros H line Hin. apply H. right. exact Hin.
Qed.

Lemma get_gpu_temperature_value {W : Type} (env : Env W) (w : W) :
  value (get_gpu_temperature env w)
  = match fst (env_nvidia_smi env w) with
    | Ok res =>
        if returncode res =? 0 then
          match collect_temps (split newline (strip (stdout res))) [] with
          | Ok (t :: ts) => Some (max_float t ts)
          | _ => None
          end
        else None
    | Raise _ => None
    end.
Proof.
  unfold get_gpu_temperature, run_nvidia_smi. rewrite value_bind.
  destruct (env_nvidia_smi env w) as [[res|e] w']; cbn [value final fst].
  - destruct (returncode res =? 0); [|reflexivity].
    destruct (collect_temps _ _) as [[|t ts]|e]; reflexivity.
  - destruct e; reflexivity.
Qed.

(** X1.  Whenever [get_gpu_temperature] returns a reading, nvidia-smi
    has exited with code 0, the reading is the value of one of the output
    lines that pass the guard, no such line has a larger value, and the
    reading is not negative. *)
Theorem reading_is_largest_parsed_value :
  forall (W : Type) (env : Env W) (w : W) (t : Q),
    value (get_gpu_temperature env w) = Some t ->
    exists res,
      fst (env_nvidia_smi env w) = Ok res
      /\ returncode res = 0
      /\ In t (parsed_values (split newline (strip (stdout res))))
      /\ (forall x, In x (parsed_values (split newline (strip (stdout res)))) ->
                    (x <= t)%Q)
      /\ (0 <= t)%Q.
Proof.
  intros W env w t H. rewrite get_gpu_temperature_value in H.
  destruct (fst (env_nvidia_smi env w)) as [res|e]; [|discriminate].
  exists res. split; [reflexivity|].
  destruct (returncode res =? 0) eqn:Rc; [|discriminate].
  apply Z.eqb_eq in Rc. split; [exact Rc|].
  pose proof (collect_temps_result (split newline (strip (stdout res))) []) as C.
  destruct (collect_temps _ _) as [[|t0 ts]|e]; try discriminate.
  destruct C as [E _]. cbn [app] in E. rewrite <- E.
  injection H as <-.
  destruct (max_float_is_maximum t0 ts) as [Hin Hmax].
  split; [exact Hin|]. split; [exact Hmax|].
  rewrite E in Hin. apply parsed_values_in in Hin as (line & _ & _ & F).
  apply float_of_str_nonneg in F. exact F.
Qed.

Lemma reading_is_largest_parsed_value_witness :
  exists res,
    fst (env_nvidia_smi sim_env (machine ["61"; "N/A"; "74.5"; "68"] [])) = Ok res
    /\ returncode res = 0
    /\ In (149 # 2)%Q (parsed_values (split newline (strip (stdout res))))
    /\ (forall x, In x (parsed_values (split newline (strip (stdout res)))) ->
                  (x <= 149 # 2)%Q)
    /\ (0 <= 149 # 2)%Q.
Proof.
  apply (reading_is_largest_parsed_value sim sim_env
           (machine ["61"; "N/A"; "74.5"; "68"] []) (149 # 2)%Q).
  reflexivity.
Defined.

(** X2.  When running nvidia-smi raises, [get_gpu_temperature] returns
    [None].  When it completes with an output of seven-bit characters,
    [get_gpu_temperature] returns [None] in exactly these cases: the
    exit code is not zero; or no output line passes the guard; or some
    line passes the guard and has two dots or more. *)
Theorem reading_unavailable_iff :
  forall (W : Type) (env : Env W) (w : W),
    match fst (env_nvidia_smi env w) with
    | Raise _ => value (get_gpu_temperature env w) = None
    | Ok res =>
        seven_bit (stdout res) = true ->
        (value (get_gpu_temperature env w) = None
         <-> returncode res <> 0
            \/ (forall line, In line (split newline (strip (stdout res))) ->
                             line_kept line = false)
             \/ (exists line, In line (split newline (strip (stdout res)))
                              /\ line_kept line = true
                              /\ (2 <= count_dots (strip line))%nat))
    end.
Proof.
  intros W env w. rewrite get_gpu_temperature_value.
  destruct (fst (env_nvidia_smi env w)) as [res|e]; [|reflexivity].
  intros _.
  destruct (returncode res =? 0) eqn:Rc.
  - apply Z.eqb_eq in Rc.
    pose proof (collect_temps_result (split newline (strip (stdout res))) []) as C.
    destruct (collect_temps _ _) as [found|e].
    + destruct C as [E P]. cbn [app] in E. subst found.
      pose proof (parsed_values_nil _ P) as N.
      destruct (parsed_values _) as [|t ts].
      * split; [intros _; right; left; apply N; reflexivity|reflexivity].
      * split; [discriminate|].
        intros [H|[H|(line & Hin & Hk & Hd)]].
        -- contradiction.
        -- apply N in H. discriminate.
        -- exfalso. apply (P line Hin Hk).
           apply float_of_str_fails_iff_two_dots; [|exact Hd].
           unfold line_kept in Hk. apply andb_true_iff in Hk as [_ Hk]. exact Hk.
    + split; [intros _|reflexivity].
      destruct C as (line & Hin & Hk & Hf). right. right.
      exists line. repeat split; [exact Hin|exact Hk|].
      apply float_of_str_fails_iff_two_dots; [|exact Hf].
      unfold line_kept in Hk. apply andb_true_iff in Hk as [_ Hk]. exact Hk.
  - apply Z.eqb_neq in Rc. split; [intros _; left; exact Rc|reflexivity].
Qed.

Lemma reading_unavailable_iff_witness :
  value (get_gpu_temperature sim_env (machine ["61"; "1.2.3"] [])) = None.
Proof.
  pose proof (reading_unavailable_iff sim sim_env (machine ["61"; "1.2.3"] []))
    as H.
  cbn [sim_env env_nvidia_smi machine sensor reading fst] in H.
  apply H; [reflexivity|].
  right. right. exists "1.2.3".
  split; [vm_compute; right; left; reflexivity|].
  split; [reflexivity|]. vm_compute. apply le_n.
Defined.

(** ** More on the enumeration *)

(** X3.  The name test is substring containment after lower-casing the
    configured name: a lower-cased process name passes it exactly when it
    can be cut into a prefix, the lower-cased form of some configured
    name, and a suffix. *)
Theorem name_matches_iff_substring :
  forall (names : list string) (process_name : string),
    name_matches names process_name = true
    <-> exists trex_name pre post,
          In trex_name names
          /\ process_name = (pre ++ lower trex_name ++ post)%string.
Proof.
  intros names process_name. unfold name_matches.
  rewrite existsb_exists. split.
  - intros (t & Hin & Hc). apply contains_spec in Hc as (pre & post & E).
    exists t, pre, post. split; assumption.
  - intros (t & pre & post & Hin & E). exists t. split; [exact Hin|].
    apply contains_spec. exists pre, post. exact E.
Qed.

Lemma named_prefix_cut (before after : list Process) (unnamed : Process) :
  (forall q, In q before -> info_name q <> None) ->
  info_name unnamed = None ->
  named_prefix (before ++ unnamed :: after) = before.
Proof.
  intros Hb Hu. induction before as [|b before IH].
  - simpl. rewrite Hu. reflexivity.
  - simpl. pose proof (Hb b (or_introl eq_refl)) as Hn.
    destruct (info_name b); [|congruence].
    rewrite IH; [reflexivity|]. intros q Hq. apply Hb. right. exact Hq.
Qed.

Lemma find_loop_error_logged {W : Type} (names : list string)
      (before after acc : list Process) (unnamed : Process) (w : W) :
  (forall q, In q before -> info_name q <> None) ->
  info_name unnamed = None ->
  exists pre,
    trace (find_loop names (before ++ unnamed :: after) acc w)
    = pre ++ [Log ERROR (ErrorFindingProcesses AttributeError)].
Proof.
  intros Hb Hu. revert acc w. induction before as [|b before IH]; intros acc w.
  - exists []. cbn [app find_loop]. rewrite Hu. reflexivity.
  - assert (Hb' : forall q, In q before -> info_name q <> None)
      by (intros q Hq; apply Hb; right; exact Hq).
    specialize (IH Hb').
    pose proof (Hb b (or_introl eq_refl)) as Hn.
    cbn [app find_loop]. destruct (info_name b) as [name|]; [|congruence].
    destruct (name_matches names (lower name)).
    + destruct (IH (acc ++ [b]) w) as [pre E].
      exists (Log DEBUG (FoundProcess name (pid b)) :: pre).
      unfold log, emit. rewrite trace_bind. cbn [trace final app].
      rewrite E. reflexivity.
    + destruct (cmdline_matches (cmdline_of b)).
      * destruct (IH (acc ++ [b]) w) as [pre E].
        exists (Log DEBUG (FoundProcessByCmdline name (pid b)) :: pre).
        unfold log, emit. rewrite trace_bind. cbn [trace final app].
        rewrite E. reflexivity.
      * apply IH.
Qed.

(** X4.  A process whose name psutil could not read ends the scan: the
    result holds the selected processes enumerated before it and none of
    those after it, whatever their names, and the last thing the scan
    does is log the error. *)
Theorem find_trex_processes_stops_at_unnamed_process :
  forall (W : Type) (env : Env W) (names : list string) (w : W)
         (before after : list Process) (unnamed : Process),
    fst (env_process_iter env w) = before ++ unnamed :: after ->
    (forall q, In q before -> info_name q <> None) ->
    info_name unnamed = None ->
    value (find_trex_processes env names w) = filter (selected names) before
    /\ exists pre,
         trace (find_trex_processes env names w)
         = pre ++ [Log ERROR (ErrorFindingProcesses AttributeError)].
Proof.
  intros W env names w before after unnamed Henum Hb Hu. split.
  - rewrite find_trex_processes_value, Henum, (named_prefix_cut _ _ _ Hb Hu).
    reflexivity.
  - unfold find_trex_processes, process_iter. rewrite trace_bind.
    destruct (env_process_iter env w) as [ps w']. cbn [fst] in Henum. subst ps.
    cbn [trace value final].
    destruct (find_loop_error_logged names before after [] unnamed w' Hb Hu)
      as [pre E].
    exists (ProcessIter :: pre). rewrite E. reflexivity.
Qed.

Lemma find_trex_processes_stops_at_unnamed_process_witness :
  let w := machine ["90"]
             [stubborn 1; idle_proc (unnamed_miner 2); stubborn 3] in
  value (find_trex_processes sim_env ["t-rex"] w) = [miner 1]
  /\ exists pre,
       trace (find_trex_processes sim_env ["t-rex"] w)
       = pre ++ [Log ERROR (ErrorFindingProcesses AttributeError)].
Proof.
  cbv zeta.
  apply (find_trex_processes_stops_at_unnamed_process sim sim_env ["t-rex"]
           (machine ["90"] [stubborn 1; idle_proc (unnamed_miner 2); stubborn 3])
           [miner 1] [miner 3] (unnamed_miner 2)).
  - reflexivity.
  - intros q [E|[]]. subst q. discriminate.
  - reflexivity.
Defined.

Lemma contains_empty (s : string) : contains EmptyString s = true.
Proof. destruct s; reflexivity. Qed.

Lemma filter_all {A} (f : A -> bool) (l : list A) :
  (forall x, In x l -> f x = true) -> filter f l = l.
Proof.
  induction l as [|a l IH]; intro H; [reflexivity|].
  cbn [filter]. rewrite (H a (or_introl eq_refl)), IH; [reflexivity|].
  intros x Hx. apply H. right. exact Hx.
Qed.

(** X5.  An empty string among the configured names selects every
    process: the result is then every process the scan reaches. *)
Theorem empty_name_selects_every_process :
  forall (W : Type) (env : Env W) (names : list string) (w : W),
    In EmptyString names ->
    value (find_trex_processes env names w)
    = named_prefix (fst (env_process_iter env w)).
Proof.
  intros W env names w Hin. rewrite find_trex_processes_value.
  apply filter_all. intros proc Hp. apply named_prefix_named in Hp.
  unfold selected. destruct (info_name proc) as [name|]; [|congruence].
  apply orb_true_iff. left. unfold name_matches. apply existsb_exists.
  exists EmptyString. split; [exact Hin|apply contains_empty].
Qed.

Lemma empty_name_selects_every_process_witness :
  value (find_trex_processes sim_env ["t-rex"; ""]
           (machine ["90"] [stubborn 1; idle_proc monitor_script;
                            idle_proc trex_exe]))
  = [miner 1; monitor_script; trex_exe].
Proof.
  rewrite (empty_name_selects_every_process sim sim_env ["t-rex"; ""]).
  - reflexivity.
  - right. left. reflexivity.
Defined.

(** ** More on the shutdown procedure *)

Lemma shutdown_event_mono (pids pids' : list Z) (e : event) :
  incl pids pids' -> shutdown_event pids e -> shutdown_event pids' e.
Proof.
  intros H. destruct e; cbn [shutdown_event]; auto.
  intro Hps. eapply incl_tran; eassumption.
Qed.

Section ShutdownEvents.

Context {W : Type} (env : Env W).
Variable os : os_name.

Lemma signal_process_events (proc : Process) (w : W) :
  Forall (shutdown_event [pid proc]) (trace (signal_process env os proc w)).
Proof.
  unfold signal_process; destruct os; os_calls;
    repeat split_result;
    repeat (constructor; [cbn [shutdown_event]; auto; left; reflexivity|]);
    constructor.
Qed.

Lemma interrupt_phase_events (processes acc : list Process) (w : W) :
  Forall (shutdown_event (map pid processes))
         (trace (interrupt_phase env os processes acc w)).
Proof.
  revert acc w; induction processes as [|proc rest IH]; intros acc w.
  - constructor.
  - cbn [interrupt_phase]. rewrite trace_bind. apply Forall_app. split.
    + eapply Forall_impl; [|apply signal_process_events].
      intro e. apply shutdown_event_mono.
      intros p [E|[]]. left. exact E.
    + eapply Forall_impl; [|apply IH].
      intro e. apply shutdown_event_mono. apply incl_tl, incl_refl.
Qed.

Lemma count_running_events (procs : list Process) (w : W) :
  Forall (shutdown_event (map pid procs)) (trace (count_running env procs w)).
Proof.
  induction procs as [|proc rest IH]; [constructor|].
  cbn [count_running]. rewrite trace_bind. unfold is_running at 1 2 3.
  cbn [trace value final app]. constructor; [left; reflexivity|].
  rewrite trace_bind. cbn [ret trace]. rewrite app_nil_r.
  eapply Forall_impl; [|apply IH].
  intro e. apply shutdown_event_mono. apply incl_tl, incl_refl.
Qed.

Lemma poll_events (terminated : list Process) (ticks : list Z) (w : W) :
  Forall (shutdown_event (map pid terminated))
         (trace (poll env terminated ticks w)).
Proof.
  revert w; induction ticks as [|remaining later IH]; intro w; [constructor|].
  cbn [poll]. rewrite trace_bind. apply Forall_app.
  split; [apply count_running_events|].
  destruct (value (count_running env terminated w) =? 0).
  - repeat constructor.
  - unfold log, emit, sleep. rewrite !trace_bind. cbn [trace final app].
    constructor; [exact I|]. constructor; [exact I|]. apply IH.
Qed.

Lemma wait_phase_events (g : Z) (terminated : list Process) (w : W) :
  Forall (shutdown_event (map pid terminated))
         (trace (wait_phase env g terminated w)).
Proof.
  destruct terminated as [|proc rest]; [repeat constructor|].
  cbn [wait_phase]. unfold log, emit, wait_procs. rewrite !trace_bind.
  cbn [trace final app]. constructor; [exact I|].
  apply Forall_app. split; [apply poll_events|].
  constructor; [|constructor]. cbn [shutdown_event]. apply incl_refl.
Qed.

Lemma kill_loop_events (alive : list Process) (w : W) :
  Forall (shutdown_event (map pid alive)) (trace (kill_loop env alive w)).
Proof.
  revert w; induction alive as [|proc rest IH]; intro w; [constructor|].
  cbn [kill_loop]. rewrite !trace_bind. apply Forall_app. split.
  - unfold kill. destruct (env_kill env proc w). cbn [trace].
    constructor; [left; reflexivity|constructor].
  - apply Forall_app. split.
    + destruct (value (kill env proc w)); repeat constructor.
    + eapply Forall_impl; [|apply IH].
      intro e. apply shutdown_event_mono. apply incl_tl, incl_refl.
Qed.

Lemma kill_phase_events (alive : list Process) (w : W) :
  Forall (shutdown_event (map pid alive)) (trace (kill_phase env alive w)).
Proof.
  destruct alive as [|proc rest]; [constructor|].
  unfold kill_phase, log, emit. rewrite trace_bind. cbn [trace final app].
  constructor; [exact I|]. apply kill_loop_events.
Qed.

Lemma interrupt_phase_value_pids (processes : list Process) (w : W) :
  incl (map pid (value (interrupt_phase env os processes [] w)))
       (map pid processes).
Proof.
  intros p Hp. apply in_map_iff in Hp as (proc & <- & Hin).
  apply interrupt_phase_value_incl in Hin as [[]|Hin].
  apply in_map. exact Hin.
Qed.

Lemma wait_phase_value_pids (g : Z) (terminated : list Process) (w : W) :
  incl (map pid (value (wait_phase env g terminated w))) (map pid terminated).
Proof.
  rewrite wait_phase_value. intros p Hp.
  apply in_map_iff in Hp as (proc & <- & Hin).
  apply filter_In in Hin as [Hin _]. apply in_map. exact Hin.
Qed.

Lemma graceful_shutdown_trex_events (g : Z) (processes : list Process) (w : W) :
  Forall (shutdown_event (map pid processes))
         (trace (graceful_shutdown_trex env g os processes w)).
Proof.
  assert (D : processes = [] \/ processes <> [])
    by (destruct processes; [left; reflexivity|right; discriminate]).
  destruct D as [E|Hne]; [subst; repeat constructor|].
  rewrite (graceful_shutdown_trex_phases env os g processes w Hne). cbv zeta.
  pose proof (interrupt_phase_value_pids processes w) as I1.
  set (r1 := interrupt_phase env os processes [] w) in *.
  pose proof (wait_phase_value_pids g (value r1) (final r1)) as I2.
  set (r2 := wait_phase env g (value r1) (final r1)) in *.
  constructor; [exact I|]. apply Forall_app. split.
  - apply interrupt_phase_events.
  - apply Forall_app. split.
    + eapply Forall_impl; [|apply wait_phase_events].
      intro e. apply shutdown_event_mono, I1.
    + apply Forall_app. split; [|repeat constructor].
      eapply Forall_impl; [|apply kill_phase_events].
      intro e. apply shutdown_event_mono. eapply incl_tran; eassumption.
Qed.

(** Events that a filter drops wherever the procedure only logs, sleeps
    or probes. *)
Section Filters.

Variable keep : event -> bool.
Hypothesis drop_log : forall lvl m, keep (Log lvl m) = false.
Hypothesis drop_sleep : forall secs, keep (Sleep secs) = false.
Hypothesis drop_probe : forall p b, keep (IsRunning p b) = false.
Hypothesis drop_wait : forall ps, keep (WaitProcs ps) = false.

Lemma count_running_filtered (procs : list Process) (w : W) :
  filter keep (trace (count_running env procs w)) = [].
Proof.
  induction procs as [|proc rest IH]; [reflexivity|].
  cbn [count_running]. rewrite trace_bind. unfold is_running at 1 2 3.
  cbn [trace value final app filter]. rewrite drop_probe.
  rewrite trace_bind. cbn [ret trace]. rewrite app_nil_r. exact IH.
Qed.

Lemma poll_filtered (terminated : list Process) (ticks : list Z) (w : W) :
  filter keep (trace (poll env terminated ticks w)) = [].
Proof.
  revert w; induction ticks as [|remaining later IH]; intro w; [reflexivity|].
  cbn [poll]. rewrite trace_bind, filter_app, count_running_filtered.
  destruct (value (count_running env terminated w) =? 0).
  - cbn [log emit trace filter app]. rewrite drop_log. reflexivity.
  - unfold log, emit, sleep. rewrite !trace_bind.
    cbn [trace final app filter]. rewrite drop_log, drop_sleep. apply IH.
Qed.

Lemma wait_phase_filtered (g : Z) (terminated : list Process) (w : W) :
  filter keep (trace (wait_phase env g terminated w)) = [].
Proof.
  destruct terminated as [|proc rest].
  - cbn [wait_phase]. unfold log, emit, ret. rewrite trace_bind.
    cbn [trace app filter]. rewrite drop_log. reflexivity.
  - cbn [wait_phase]. unfold log, emit, wait_procs. rewrite !trace_bind.
    cbn [trace final app filter]. rewrite drop_log, filter_app, poll_filtered.
    cbn [app filter]. rewrite drop_wait. reflexivity.
Qed.

End Filters.

Lemma signal_process_sends (proc : Process) (w : W) :
  filter is_send (trace (signal_process env os proc w))
  = [SendSignal (pid proc) (interrupt_signal os)].
Proof.
  unfold signal_process; destruct os; os_calls;
    repeat split_result; reflexivity.
Qed.

Lemma signal_process_kills (proc : Process) (w : W) :
  filter is_kill (trace (signal_process env os proc w)) = [].
Proof.
  unfold signal_process; destruct os; os_calls;
    repeat split_result; reflexivity.
Qed.

Lemma interrupt_phase_sends (processes acc : list Process) (w : W) :
  filter is_send (trace (interrupt_phase env os processes acc w))
  = map (fun proc => SendSignal (pid proc) (interrupt_signal os)) processes.
Proof.
  revert acc w; induction processes as [|proc rest IH]; intros acc w;
    [reflexivity|].
  cbn [interrupt_phase map]. rewrite trace_bind, filter_app,
    signal_process_sends, IH. reflexivity.
Qed.

Lemma interrupt_phase_kills (processes acc : list Process) (w : W) :
  filter is_kill (trace (interrupt_phase env os processes acc w)) = [].
Proof.
  revert acc w; induction processes as [|proc rest IH]; intros acc w;
    [reflexivity|].
  cbn [interrupt_phase]. rewrite trace_bind, filter_app,
    signal_process_kills, IH. reflexivity.
Qed.

Lemma kill_loop_sends (alive : list Process) (w : W) :
  filter is_send (trace (kill_loop env alive w)) = [].
Proof.
  revert w; induction alive as [|proc rest IH]; intro w; [reflexivity|].
  cbn [kill_loop]. rewrite !trace_bind, !filter_app, IH.
  unfold kill. destruct (env_kill env proc w) as [[[]|e] w'];
    reflexivity.
Qed.

Lemma kill_loop_kills_each (alive : list Process) (w : W) :
  filter is_kill (trace (kill_loop env alive w))
  = map (fun proc => Kill (pid proc)) alive.
Proof.
  revert w; induction alive as [|proc rest IH]; intro w; [reflexivity|].
  cbn [kill_loop map]. rewrite !trace_bind, !filter_app, IH.
  unfold kill. destruct (env_kill env proc w) as [[[]|e] w'];
    reflexivity.
Qed.

Lemma kill_phase_sends (alive : list Process) (w : W) :
  filter is_send (trace (kill_phase env alive w)) = [].
Proof.
  destruct alive as [|proc rest]; [reflexivity|].
  unfold kill_phase, log, emit. rewrite trace_bind.
  cbn [trace final app filter is_send]. apply kill_loop_sends.
Qed.

Lemma kill_phase_kills_each (alive : list Process) (w : W) :
  filter is_kill (trace (kill_phase env alive w))
  = map (fun proc => Kill (pid proc)) alive.
Proof.
  destruct alive as [|proc rest]; [reflexivity|].
  unfold kill_phase, log, emit. rewrite trace_bind.
  cbn [trace final app filter is_kill]. apply kill_loop_kills_each.
Qed.

End ShutdownEvents.

(** X6.  The shutdown procedure does nothing but log, sleep, and signal
    or probe the processes it was given: every signal, terminate, kill
    and liveness check in its trace carries the pid of a target, and the
    trace holds no sensor call, no enumeration and no printing. *)
Theorem shutdown_touches_only_its_targets :
  forall (W : Type) (env : Env W) (os : os_name) (g : Z)
         (processes : list Process) (w : W) (e : event),
    In e (trace (graceful_shutdown_trex env g os processes w)) ->
    shutdown_event (map pid processes) e.
Proof.
  intros W env os g processes w e Hin.
  pose proof (graceful_shutdown_trex_events env os g processes w) as F.
  rewrite Forall_forall in F. apply F, Hin.
Qed.

Lemma shutdown_touches_only_its_targets_witness :
  In (Kill 2)
     (trace (graceful_shutdown_trex sim_env 7 posix [miner 1; miner 2]
               (machine ["90"] [obedient 1; stubborn 2])))
  /\ shutdown_event (map pid [miner 1; miner 2]) (Kill 2).
Proof.
  assert (H : In (Kill 2)
                 (trace (graceful_shutdown_trex sim_env 7 posix [miner 1; miner 2]
                           (machine ["90"] [obedient 1; stubborn 2]))))
    by (vm_compute; repeat (first [left; reflexivity | right])).
  split; [exact H|].
  apply (shutdown_touches_only_its_targets sim sim_env posix 7
           [miner 1; miner 2] (machine ["90"] [obedient 1; stubborn 2])).
  exact H.
Defined.

(** X7.  Every target is sent the interrupt exactly once, in the order
    of the list, and nothing else is: a failure on one target does not
    keep the others from being signalled, and no interrupt is ever
    repeated. *)
Theorem shutdown_interrupts_each_target_once :
  forall (W : Type) (env : Env W) (os : os_name) (g : Z)
         (processes : list Process) (w : W),
    filter is_send (trace (graceful_shutdown_trex env g os processes w))
    = map (fun proc => SendSignal (pid proc) (interrupt_signal os)) processes.
Proof.
  intros W env os g processes w.
  assert (D : processes = [] \/ processes <> [])
    by (destruct processes; [left; reflexivity|right; discriminate]).
  destruct D as [E|Hne]; [subst; reflexivity|].
  rewrite (graceful_shutdown_trex_phases env os g processes w Hne). cbv zeta.
  cbn [filter is_send]. rewrite !filter_app.
  rewrite interrupt_phase_sends, kill_phase_sends.
  rewrite wait_phase_filtered by reflexivity.
  cbn [filter is_send app]. rewrite app_nil_r. reflexivity.
Qed.

(** The kills of the procedure, in the model: one for each process of
    [terminated_processes] that is running when the countdown ends. *)
Lemma graceful_shutdown_trex_kills :
  forall (W : Type) (env : Env W) (os : os_name) (g : Z)
         (processes : list Process) (w : W),
    let r1 := interrupt_phase env os processes [] w in
    let r2 := wait_phase env g (value r1) (final r1) in
    filter is_kill (trace (graceful_shutdown_trex env g os processes w))
    = map (fun proc => Kill (pid proc))
          (filter (fun proc => env_is_running env proc (final r2)) (value r1)).
Proof.
  intros W env os g processes w. cbv zeta.
  assert (D : processes = [] \/ processes <> [])
    by (destruct processes; [left; reflexivity|right; discriminate]).
  destruct D as [E|Hne].
  - rewrite E. reflexivity.
  - rewrite (graceful_shutdown_trex_phases env os g processes w Hne).
    cbv zeta. cbn [filter is_kill]. rewrite !filter_app.
    rewrite interrupt_phase_kills, kill_phase_kills_each.
    rewrite wait_phase_filtered by reflexivity.
    cbn [filter is_kill app]. rewrite app_nil_r.
    rewrite wait_phase_value. reflexivity.
Qed.

Lemma interrupt_phase_sleep_nonneg {W : Type} (env : Env W) (os : os_name)
      (processes acc : list Process) (w : W) :
  0 <= total_sleep (trace (interrupt_phase env os processes acc w)).
Proof.
  revert acc w; induction processes as [|proc rest IH]; intros acc w.
  - simpl. lia.
  - cbn [interrupt_phase]. rewrite trace_bind, total_sleep_app.
    specialize (IH (if value (signal_process env os proc w)
                    then acc ++ [proc] else acc)
                   (final (signal_process env os proc w))).
    destruct (signal_process_sleep env os proc w) as [E|E]; rewrite E; lia.
Qed.


Lemma kills_of_processes (procs : list Process) (p : Z) :
  In (Kill p) (map (fun proc => Kill (pid proc)) procs)
  <-> exists proc, In proc procs /\ pid proc = p.
Proof.
  rewrite in_map_iff. split.
  - intros (proc & E & Hin). injection E as <-. exists proc. split; auto.
  - intros (proc & Hin & <-). exists proc. split; auto.
Qed.

Lemma kill_events_in (tr : list event) (p : Z) :
  In (Kill p) tr <-> In (Kill p) (filter is_kill tr).
Proof.
  rewrite filter_In. split; [intro H; split; [exact H|reflexivity]|].
  intros [H _]. exact H.
Qed.

Lemma NoDup_kills (procs : list Process) :
  NoDup (map pid procs) -> NoDup (map (fun proc => Kill (pid proc)) procs).
Proof.
  induction procs as [|proc rest IH]; intro H; [constructor|].
  cbn [map] in *. inversion H as [|x xs Hnot Hrest]; subst.
  constructor; [|apply IH, Hrest].
  intro Hin. apply kills_of_processes in Hin as (q & Hq & E).
  apply Hnot. rewrite <- E. apply in_map, Hq.
Qed.


(** X8.  When the targets have distinct pids, a kill is sent to a pid
    exactly when it is the pid of a process that was appended to
    [terminated_processes] during the interrupt phase and is still
    running when the countdown ends, and no pid is killed twice; a target
    that has exited by then, or was never appended, is not killed. *)
Theorem shutdown_kills_exactly_the_survivors :
  forall (W : Type) (env : Env W) (os : os_name) (g : Z)
         (processes : list Process) (w : W),
    NoDup (map pid processes) ->
    let r1 := interrupt_phase env os processes [] w in
    let r2 := wait_phase env g (value r1) (final r1) in
    (forall p,
       In (Kill p) (trace (graceful_shutdown_trex env g os processes w))
       <-> exists proc, In proc (value r1) /\ pid proc = p
                        /\ env_is_running env proc (final r2) = true)
    /\ NoDup (filter is_kill
                (trace (graceful_shutdown_trex env g os processes w))).
Proof.
  intros W env os g processes w Hnd. cbv zeta.
  pose proof (graceful_shutdown_trex_kills W env os g processes w) as K.
  cbv zeta in K. split.
  - intro p. rewrite kill_events_in, K, kills_of_processes. split.
    + intros (proc & Hin & E). apply filter_In in Hin as [Hin Hrun].
      exists proc. repeat split; assumption.
    + intros (proc & Hin & E & Hrun). exists proc.
      split; [apply filter_In; split; assumption|exact E].
  - rewrite K. apply NoDup_kills, NoDup_map_filter.
    apply (interrupt_phase_outcomes env os processes [] w Hnd).
Qed.

Lemma shutdown_kills_exactly_the_survivors_witness :
  (forall p,
     In (Kill p)
        (trace (graceful_shutdown_trex sim_env 5 posix
                  [miner 1; miner 2; miner 3]
                  (machine ["90"] [obedient 1; stubborn 2;
                                   shielded 3 AccessDenied])))
     -> p = 2)
  /\ NoDup (filter is_kill
              (trace (graceful_shutdown_trex sim_env 5 posix
                        [miner 1; miner 2; miner 3]
                        (machine ["90"] [obedient 1; stubborn 2;
                                         shielded 3 AccessDenied])))).
Proof.
  destruct (shutdown_kills_exactly_the_survivors sim sim_env posix 5
              [miner 1; miner 2; miner 3]
              (machine ["90"] [obedient 1; stubborn 2; shielded 3 AccessDenied]))
    as [H N].
  - cbn. constructor; [intros [E|[E|[]]]; discriminate|].
    constructor; [intros [E|[]]; discriminate|].
    constructor; [intros []|constructor].
  - split; [|exact N].
    intros p Hp. apply H in Hp as (proc & Hin & E & _).
    vm_compute in Hin. destruct Hin as [<-|[]]. symmetry. exact E.
Defined.




(** ** The final state of each target *)












(** X9.  For every grace period [g >= 0] and every target list, the
    procedure sleeps less than [g + 5] seconds plus two seconds per
    target, and never a negative time. *)
Theorem shutdown_sleep_general_bound :
  forall (W : Type) (env : Env W) (os : os_name) (g : Z)
         (processes : list Process) (w : W),
    0 <= g ->
    0 <= total_sleep (trace (graceful_shutdown_trex env g os processes w))
      < g + 5 + 2 * Z.of_nat (List.length processes).
Proof.
  intros W env os g processes w Hg.
  assert (D : processes = [] \/ processes <> [])
    by (destruct processes; [left; reflexivity|right; discriminate]).
  destruct D as [E|Hne].
  - subst. cbn. lia.
  - rewrite (graceful_shutdown_trex_phases env os g processes w Hne). cbv zeta.
    cbn [total_sleep]. rewrite !total_sleep_app, kill_phase_sleep.
    cbn [total_sleep].
    pose proof (interrupt_phase_sleep env os processes [] w) as U1.
    pose proof (interrupt_phase_sleep_nonneg env os processes [] w) as L1.
    pose proof (wait_phase_sleep env g
                  (value (interrupt_phase env os processes [] w))
                  (final (interrupt_phase env os processes [] w))) as B2.
    pose proof (countdown_overrun g Hg) as O. lia.
Qed.

Lemma shutdown_sleep_general_bound_witness :
  0 <= total_sleep
         (trace (graceful_shutdown_trex sim_env 7 posix [miner 1]
                   (machine ["90"] [stubborn 1])))
    < 7 + 5 + 2 * Z.of_nat (List.length [miner 1]).
Proof.
  apply (shutdown_sleep_general_bound sim sim_env posix 7 [miner 1]
           (machine ["90"] [stubborn 1])).
  lia.
Defined.

(** X10.  With a grace period of zero or less there is no countdown:
    the wait neither sleeps nor changes anything, the processes handed to
    the kill phase are those of [terminated_processes] that are running
    right after the interrupt phase, and the whole procedure sleeps only
    the settle delays. *)
Theorem nonpositive_grace_period_skips_the_wait :
  forall (W : Type) (env : Env W) (os : os_name) (g : Z)
         (processes : list Process) (w : W),
    g <= 0 ->
    let r1 := interrupt_phase env os processes [] w in
    let r2 := wait_phase env g (value r1) (final r1) in
    total_sleep (trace r2) = 0
    /\ final r2 = final r1
    /\ (forall proc,
          In proc (value r2)
          <-> In proc (value r1) /\ env_is_running env proc (final r1) = true)
    /\ total_sleep (trace (graceful_shutdown_trex env g os processes w))
       = total_sleep (trace r1).
Proof.
  intros W env os g processes w Hg. cbv zeta.
  assert (C : countdown g = []).
  { rewrite countdown_unfold. destruct (0 <? g) eqn:E; [|reflexivity].
    apply Z.ltb_lt in E. lia. }
  set (r1 := interrupt_phase env os processes [] w).
  assert (P : total_sleep (trace (wait_phase env g (value r1) (final r1))) = 0
              /\ final (wait_phase env g (value r1) (final r1)) = final r1
              /\ value (wait_phase env g (value r1) (final r1))
                 = filter (fun proc => env_is_running env proc (final r1))
                          (value r1)).
  { destruct (value r1) as [|proc rest]; [repeat split; reflexivity|].
    cbn [wait_phase]. rewrite C. repeat split; reflexivity. }
  destruct P as (P1 & P2 & P3).
  split; [exact P1|]. split; [exact P2|].
  split; [intro proc; rewrite P3; apply filter_In|].
  assert (D : processes = [] \/ processes <> [])
    by (destruct processes; [left; reflexivity|right; discriminate]).
  destruct D as [E|Hne].
  - unfold r1. rewrite E. reflexivity.
  - rewrite (graceful_shutdown_trex_phases env os g processes w Hne). cbv zeta.
    fold r1. cbn [total_sleep]. rewrite !total_sleep_app, P1, kill_phase_sleep.
    cbn [total_sleep]. lia.
Qed.

Lemma nonpositive_grace_period_skips_the_wait_witness :
  total_sleep
    (trace (graceful_shutdown_trex sim_env 0 posix [miner 1; miner 2]
              (machine ["90"] [stubborn 1; stubborn 2])))
  = total_sleep
      (trace (interrupt_phase sim_env posix [miner 1; miner 2] []
                (machine ["90"] [stubborn 1; stubborn 2]))).
Proof.
  apply (nonpositive_grace_period_skips_the_wait sim sim_env posix 0
           [miner 1; miner 2] (machine ["90"] [stubborn 1; stubborn 2])).
  lia.
Defined.

(** ** More on the loop *)

Lemma get_gpu_temperature_trace {W : Type} (env : Env W) (w : W) :
  exists lvl m, trace (get_gpu_temperature env w) = [RunNvidiaSmi; Log lvl m].
Proof.
  unfold get_gpu_temperature, run_nvidia_smi. rewrite trace_bind.
  destruct (env_nvidia_smi env w) as [[res|e] w']; cbn [trace value final app].
  - destruct (returncode res =? 0); [|eexists; eexists; reflexivity].
    destruct (collect_temps _ _) as [[|t ts]|e]; eexists; eexists; reflexivity.
  - destruct e; eexists; eexists; reflexivity.
Qed.

Lemma find_loop_logs {W : Type} (names : list string)
      (procs acc : list Process) (w : W) :
  forallb is_log (trace (find_loop names procs acc w)) = true
  /\ final (find_loop names procs acc w) = w.
Proof.
  revert acc w; induction procs as [|proc rest IH]; intros acc w;
    [split; reflexivity|].
  cbn [find_loop]. destruct (info_name proc) as [name|]; [|split; reflexivity].
  destruct (name_matches names (lower name)).
  - unfold log, emit. rewrite trace_bind, final_bind. cbn [trace final app forallb is_log].
    apply IH.
  - destruct (cmdline_matches (cmdline_of proc)); [|apply IH].
    unfold log, emit. rewrite trace_bind, final_bind. cbn [trace final app forallb is_log].
    apply IH.
Qed.

Lemma find_trex_processes_trace {W : Type} (env : Env W) (names : list string) (w : W) :
  exists logs,
    trace (find_trex_processes env names w) = ProcessIter :: logs
    /\ forallb is_log logs = true.
Proof.
  unfold find_trex_processes, process_iter. rewrite trace_bind.
  destruct (env_process_iter env w) as [ps w']. cbn [trace value final app].
  eexists. split; [reflexivity|]. apply find_loop_logs.
Qed.

Lemma logs_filtered (keep : event -> bool) (logs : list event) :
  (forall lvl m, keep (Log lvl m) = false) ->
  forallb is_log logs = true -> filter keep logs = [].
Proof.
  intros Hk. induction logs as [|e logs IH]; [reflexivity|].
  cbn [forallb filter]. intro H. apply andb_true_iff in H as [He Hl].
  destruct e; try discriminate. rewrite Hk. apply IH, Hl.
Qed.

Lemma logs_forall (P : event -> Prop) (logs : list event) :
  (forall lvl m, P (Log lvl m)) ->
  forallb is_log logs = true -> Forall P logs.
Proof.
  intros Hp. induction logs as [|e logs IH]; [constructor|].
  cbn [forallb]. intro H. apply andb_true_iff in H as [He Hl].
  destruct e; try discriminate. constructor; [apply Hp|apply IH, Hl].
Qed.

Section TickShape.

Context {W : Type} (env : Env W).
Variable temp_threshold : Q.
Variable check_interval : Z.
Variable names : list string.
Context {A : Type} (shutdown : list Process -> M W A).

(** The trace of one turn, branch by branch. *)
Lemma run_tick_with_trace (w : W) :
  let sample := get_gpu_temperature env w in
  let found := find_trex_processes env names (final sample) in
  trace (run_tick_with env temp_threshold check_interval names shutdown w)
  = trace sample
    ++ match value sample with
       | None => [Log WARNING CouldNotReadSkipping; Sleep check_interval]
       | Some t =>
           Log DEBUG (CurrentTemperature t)
           :: if Qle_bool temp_threshold t then
                Log CRITICAL (TemperatureExceeds t temp_threshold)
                :: trace found
                   ++ match value found with
                      | [] => [Log WARNING NoProcessesToShutdown;
                               Sleep check_interval]
                      | _ :: _ =>
                          trace (shutdown (value found) (final found))
                          ++ [Log INFO WaitingAfterShutdown; Sleep 60]
                      end
              else [Sleep check_interval]
       end.
Proof.
  cbv zeta. unfold run_tick_with. rewrite trace_bind. f_equal.
  destruct (value (get_gpu_temperature env w)) as [t|]; [|reflexivity].
  unfold log, emit. rewrite trace_bind. cbn [trace final app]. f_equal.
  destruct (Qle_bool temp_threshold t); [|reflexivity].
  rewrite !trace_bind. cbn [trace final app]. f_equal. f_equal.
  destruct (value (find_trex_processes env names _)) as [|proc rest];
    [reflexivity|].
  rewrite !trace_bind. cbn [trace final app]. reflexivity.
Qed.

End TickShape.

Lemma run_tick_is_run_tick_with {W : Type} (env : Env W)
      (thr : Q) (ci g : Z) (names : list string) (os : os_name) :
  run_tick env thr ci g names os
  = run_tick_with env thr ci names (graceful_shutdown_trex env g os).
Proof. reflexivity. Qed.

Lemma run_loop_is_run_loop_with {W : Type} (env : Env W)
      (thr : Q) (ci g : Z) (names : list string) (os : os_name) (n : nat) :
  run_loop env thr ci g names os n
  = run_loop_with env thr ci names (graceful_shutdown_trex env g os) n.
Proof. induction n as [|n IH]; [reflexivity|]. simpl. rewrite IH. reflexivity. Qed.

Lemma ends_app {A : Type} (l l' : list A) (x : A) :
  (exists before, l' = before ++ [x]) -> exists before, l ++ l' = before ++ [x].
Proof. intros [b ->]. exists (l ++ b). apply app_assoc. Qed.

Lemma ends_cons {A : Type} (a : A) (l' : list A) (x : A) :
  (exists before, l' = before ++ [x]) -> exists before, a :: l' = before ++ [x].
Proof. intros [b ->]. exists (a :: b). reflexivity. Qed.

(** X11.  Every turn of the loop ends by sleeping: sixty seconds when
    the reading reached the threshold and targets were found, the check
    interval in every other case. *)
Theorem run_tick_ends_with_a_sleep :
  forall (W : Type) (env : Env W) (temp_threshold : Q)
         (check_interval grace_period : Z) (names : list string)
         (os : os_name) (w : W),
    let sample := get_gpu_temperature env w in
    let found := find_trex_processes env names (final sample) in
    exists before,
      trace (run_tick env temp_threshold check_interval grace_period names os w)
      = before
        ++ [Sleep match value sample with
                  | Some t =>
                      if Qle_bool temp_threshold t then
                        match value found with
                        | [] => check_interval
                        | _ :: _ => 60
                        end
                      else check_interval
                  | None => check_interval
                  end].
Proof.
  intros W env thr ci g names os w. cbv zeta.
  rewrite run_tick_is_run_tick_with, run_tick_with_trace. cbv zeta.
  apply ends_app.
  destruct (value (get_gpu_temperature env w)) as [t|];
    [|exists [Log WARNING CouldNotReadSkipping]; reflexivity].
  apply ends_cons.
  destruct (Qle_bool thr t); [|exists []; reflexivity].
  apply ends_cons, ends_app.
  destruct (value (find_trex_processes env names _)) as [|proc rest].
  - exists [Log WARNING NoProcessesToShutdown]. reflexivity.
  - apply ends_app. exists [Log INFO WaitingAfterShutdown]. reflexivity.
Qed.

Lemma forall_filter_nil {A : Type} (P : A -> Prop) (keep : A -> bool) (l : list A) :
  (forall x, P x -> keep x = false) -> Forall P l -> filter keep l = [].
Proof.
  intros H F. induction F as [|x l Px F IH]; [reflexivity|].
  cbn [filter]. rewrite (H x Px). exact IH.
Qed.

Section LoopShape.

Context {W : Type} (env : Env W).
Variable temp_threshold : Q.
Variable check_interval : Z.
Variable names : list string.
Context {A : Type} (shutdown : list Process -> M W A).

Lemma run_tick_with_forall (P : event -> Prop) :
  P RunNvidiaSmi -> P ProcessIter ->
  (forall lvl m, P (Log lvl m)) -> (forall secs, P (Sleep secs)) ->
  (forall ps w, Forall P (trace (shutdown ps w))) ->
  forall w,
    Forall P (trace (run_tick_with env temp_threshold check_interval names
                       shutdown w)).
Proof.
  intros Psmi Piter Plog Psleep Pshut w.
  rewrite run_tick_with_trace. cbv zeta.
  destruct (get_gpu_temperature_trace env w) as (lvl & m & Es). rewrite Es.
  apply Forall_app. split; [repeat constructor; auto|].
  destruct (value (get_gpu_temperature env w)) as [t|];
    [|repeat constructor; auto].
  constructor; [apply Plog|].
  destruct (Qle_bool temp_threshold t); [|repeat constructor; auto].
  constructor; [apply Plog|].
  destruct (find_trex_processes_trace env names
              (final (get_gpu_temperature env w))) as (logs & Ef & Hl).
  rewrite Ef. apply Forall_app. split.
  - constructor; [exact Piter|]. apply logs_forall; assumption.
  - destruct (value (find_trex_processes env names _)) as [|proc rest];
      [repeat constructor; auto|].
    apply Forall_app. split; [apply Pshut|repeat constructor; auto].
Qed.

Lemma run_loop_with_forall (P : event -> Prop) :
  P RunNvidiaSmi -> P ProcessIter ->
  (forall lvl m, P (Log lvl m)) -> (forall secs, P (Sleep secs)) ->
  (forall ps w, Forall P (trace (shutdown ps w))) ->
  forall n w,
    Forall P (trace (run_loop_with env temp_threshold check_interval names
                       shutdown n w)).
Proof.
  intros Psmi Piter Plog Psleep Pshut n.
  induction n as [|n IH]; intro w; [constructor|].
  cbn [run_loop_with]. rewrite trace_bind. apply Forall_app. split.
  - apply run_tick_with_forall; assumption.
  - apply IH.
Qed.

Lemma run_tick_with_samples_once :
  (forall ps w, filter is_smi (trace (shutdown ps w)) = []) ->
  forall w,
    filter is_smi (trace (run_tick_with env temp_threshold check_interval names
                            shutdown w))
    = [RunNvidiaSmi].
Proof.
  intros Hshut w. rewrite run_tick_with_trace. cbv zeta.
  destruct (get_gpu_temperature_trace env w) as (lvl & m & Es). rewrite Es.
  cbn [app filter is_smi]. f_equal.
  destruct (value (get_gpu_temperature env w)) as [t|]; [|reflexivity].
  cbn [filter is_smi].
  destruct (Qle_bool temp_threshold t); [|reflexivity].
  cbn [filter is_smi].
  destruct (find_trex_processes_trace env names
              (final (get_gpu_temperature env w))) as (logs & Ef & Hl).
  rewrite Ef, filter_app. cbn [filter is_smi].
  rewrite (logs_filtered is_smi logs) by (reflexivity || exact Hl).
  destruct (value (find_trex_processes env names _)) as [|proc rest];
    [reflexivity|].
  rewrite filter_app, Hshut. reflexivity.
Qed.

End LoopShape.

(** X12.  With a check interval that is not negative (so that no
    sleep raises), the loop queries the sensor exactly once per turn,
    whatever happens in between: [n] turns hold [n] runs of
    nvidia-smi. *)
Theorem run_loop_samples_once_per_tick :
  forall (W : Type) (env : Env W) (temp_threshold : Q)
         (check_interval grace_period : Z) (names : list string)
         (os : os_name) (n : nat) (w : W),
    0 <= check_interval ->
    List.length
      (filter is_smi
         (trace (run_loop env temp_threshold check_interval grace_period
                   names os n w)))
    = n.
Proof.
  intros W env thr ci g names os n w _. revert w.
  induction n as [|n IH]; intro w; [reflexivity|].
  cbn [run_loop]. rewrite trace_bind, filter_app, length_app, IH.
  rewrite run_tick_is_run_tick_with, run_tick_with_samples_once; [reflexivity|].
  intros ps w'.
  apply (forall_filter_nil (shutdown_event (map pid ps)));
    [|apply graceful_shutdown_trex_events].
  intros e He. destruct e; try reflexivity. contradiction.
Qed.

Lemma run_loop_samples_once_per_tick_witness :
  List.length
    (filter is_smi
       (trace (run_loop sim_env 85 10 5 ["t-rex"] posix 3
                 (machine ["91"] [stubborn 1; obedient 2]))))
  = 3%nat.
Proof.
  apply (run_loop_samples_once_per_tick sim sim_env 85 10 5 ["t-rex"] posix 3
           (machine ["91"] [stubborn 1; obedient 2])).
  lia.
Defined.

(** X13.  With a check interval that is not negative (so that no sleep
    raises): if, in every state, the sample is unavailable or below the
    threshold, then [n] turns of the loop never touch the process table
    and sleep [n] check intervals in all. *)
Theorem run_loop_idles_while_cool :
  forall (W : Type) (env : Env W) (temp_threshold : Q)
         (check_interval grace_period : Z) (names : list string)
         (os : os_name),
    0 <= check_interval ->
    (forall w, match value (get_gpu_temperature env w) with
               | Some t => Qle_bool temp_threshold t = false
               | None => True
               end) ->
    forall (n : nat) (w : W),
      existsb touches_processes
        (trace (run_loop env temp_threshold check_interval grace_period
                  names os n w)) = false
      /\ total_sleep
           (trace (run_loop env temp_threshold check_interval grace_period
                     names os n w))
         = Z.of_nat n * check_interval.
Proof.
  intros W env thr ci g names os _ Hcool n.
  induction n as [|n IH]; intro w; [split; reflexivity|].
  cbn [run_loop]. rewrite trace_bind, existsb_app, total_sleep_app.
  destruct (IH (final (run_tick env thr ci g names os w))) as [T S].
  rewrite T, S, orb_false_r, Nat2Z.inj_succ.
  rewrite run_tick_is_run_tick_with, run_tick_with_trace. cbv zeta.
  destruct (get_gpu_temperature_trace env w) as (lvl & m & Es). rewrite Es.
  specialize (Hcool w).
  destruct (value (get_gpu_temperature env w)) as [t|].
  - rewrite Hcool. split; [reflexivity|]. cbn [app total_sleep]. lia.
  - split; [reflexivity|]. cbn [app total_sleep]. lia.
Qed.

Lemma run_loop_idles_while_cool_witness :
  existsb touches_processes
    (trace (run_loop (steady_env (reading ["60"])) 85 10 30 ["t-rex"] posix 3
              (machine [] [stubborn 1]))) = false
  /\ total_sleep
       (trace (run_loop (steady_env (reading ["60"])) 85 10 30 ["t-rex"] posix 3
                 (machine [] [stubborn 1])))
     = Z.of_nat 3 * 10.
Proof.
  apply (run_loop_idles_while_cool sim (steady_env (reading ["60"])) 85 10 30
           ["t-rex"] posix).
  - lia.
  - intro w. reflexivity.
Defined.

(** ** Test mode and dry run *)

Section Diagnostics.

Context {W : Type} (env : Env W).

Lemma test_shutdown_loop_run (processes : list Process) (lines : list test_line) (w : W) :
  value (test_shutdown_loop env processes lines w)
  = lines ++ map (fun proc =>
                    match env_name env proc w with
                    | Ok name => WouldSignal (pid proc) name
                    | Raise _ => WouldSignalUnnamed (pid proc)
                    end) processes
  /\ trace (test_shutdown_loop env processes lines w)
     = map (fun proc => ProcName (pid proc)) processes
  /\ final (test_shutdown_loop env processes lines w) = w.
Proof.
  revert lines; induction processes as [|proc rest IH]; intro lines.
  - cbn. rewrite app_nil_r. repeat split; reflexivity.
  - destruct (IH (lines ++ [match env_name env proc w with
                            | Ok name => WouldSignal (pid proc) name
                            | Raise _ => WouldSignalUnnamed (pid proc)
                            end])) as (V & T & F).
    cbn [test_shutdown_loop map]. rewrite value_bind, trace_bind, final_bind.
    unfold proc_name. cbn [value trace final app].
    rewrite V, T, F, <- app_assoc. repeat split; reflexivity.
Qed.

Lemma print_processes_observes (processes : list Process) (w : W) :
  forallb observes_only (trace (print_processes env processes w)) = true.
Proof.
  revert w; induction processes as [|proc rest IH]; intro w; [reflexivity|].
  cbn [print_processes]. rewrite !trace_bind, !forallb_app, IH.
  unfold proc_name. cbn [trace value final forallb observes_only].
  destruct (env_name env proc w); reflexivity.
Qed.

End Diagnostics.

(** X14.  [test_shutdown] returns [True], prints one header line with
    the number of processes and the grace period, then one line per
    process in order, with the process name when [proc.name()] succeeds;
    calling [proc.name()] is all it does, and it changes nothing. *)
Theorem test_shutdown_only_reports :
  forall (W : Type) (env : Env W) (grace_period : Z)
         (processes : list Process) (w : W),
    value (test_shutdown env grace_period processes w)
    = (true,
       WouldShutdown (List.length processes) grace_period
       :: map (fun proc =>
                 match env_name env proc w with
                 | Ok name => WouldSignal (pid proc) name
                 | Raise _ => WouldSignalUnnamed (pid proc)
                 end) processes)
    /\ trace (test_shutdown env grace_period processes w)
       = map (fun proc => ProcName (pid proc)) processes
    /\ final (test_shutdown env grace_period processes w) = w.
Proof.
  intros W env g processes w. unfold test_shutdown.
  rewrite value_bind, trace_bind, final_bind.
  destruct (test_shutdown_loop_run env processes
              [WouldShutdown (List.length processes) g] w) as (V & T & F).
  cbn [ret value trace final]. rewrite V, T, F, app_nil_r.
  repeat split; reflexivity.
Qed.

(** X15.  In test mode the loop never signals a process and never
    probes one for liveness, however many turns it runs and however hot
    the readings: all it does is query the sensor, enumerate, ask for
    process names, log, and sleep. *)
Theorem test_mode_never_signals :
  forall (W : Type) (env : Env W) (temp_threshold : Q)
         (check_interval grace_period : Z) (names : list string)
         (n : nat) (w : W),
    Forall (fun e => observes_only e || is_sleep e = true)
           (trace (run_loop_with env temp_threshold check_interval names
                     (test_shutdown env grace_period) n w)).
Proof.
  intros W env thr ci g names n w.
  apply run_loop_with_forall; try reflexivity.
  intros ps w'.
  destruct (test_shutdown_loop_run env ps [WouldShutdown (List.length ps) g] w')
    as (_ & T & _).
  unfold test_shutdown. rewrite trace_bind, T. cbn [ret trace]. rewrite app_nil_r.
  apply Forall_forall. intros e He. apply in_map_iff in He as (proc & <- & _).
  reflexivity.
Qed.

(** X16.  A dry run acts on nothing: its trace holds only the sensor
    query, at most one enumeration, requests for process names, log
    records and printed lines; no signal, no liveness probe, no sleep. *)
Theorem dry_run_only_observes :
  forall (W : Type) (env : Env W) (temp_threshold : Q)
         (names : list string) (w : W),
    forallb observes_only (trace (dry_run env temp_threshold names w)) = true.
Proof.
  intros W env thr names w. unfold dry_run, print, emit.
  rewrite !trace_bind. cbn [trace final app forallb observes_only].
  destruct (get_gpu_temperature_trace env w) as (lvl & m & Es).
  rewrite forallb_app, Es. cbn [forallb observes_only andb].
  destruct (temp_truthy (value (get_gpu_temperature env w))); [|reflexivity].
  destruct (value (get_gpu_temperature env w)) as [t|]; [|reflexivity].
  rewrite !trace_bind. cbn [trace final app forallb observes_only].
  destruct (Qle_bool thr t); [|reflexivity].
  rewrite !trace_bind. cbn [trace final app forallb observes_only].
  destruct (find_trex_processes_trace env names
              (final (get_gpu_temperature env w))) as (logs & Ef & Hl).
  rewrite forallb_app, Ef. cbn [forallb observes_only andb].
  assert (L : forallb observes_only logs = true).
  { clear Ef. induction logs as [|e logs IH]; [reflexivity|].
    cbn [forallb] in *. apply andb_true_iff in Hl as [He Hl].
    destruct e; try discriminate. cbn [observes_only andb]. apply IH, Hl. }
  rewrite L. cbn [andb].
  destruct (value (find_trex_processes env names _)) as [|proc rest];
    [reflexivity|].
  rewrite trace_bind. cbn [trace final app forallb observes_only andb].
  apply print_processes_observes.
Qed.

(** ** More on the configuration file *)

Lemma set_field_sets (c : Config) (key : string) (v : json) :
  is_field key = true ->
  exists c', set_field c key v = Ok c'
             /\ field c' key = Some v
             /\ forall key', key' <> key -> field c' key' = field c key'.
Proof.
  unfold is_field. cbn [existsb]. rewrite orb_false_r. intro H.
  unfold set_field.
  destruct (String.eqb_spec key "temp_threshold") as [E|E1];
    [subst; eexists; split; [reflexivity|]; split; [reflexivity|];
     intros k Hk; unfold field; cbn [temp_threshold check_interval grace_period
                                       trex_process_names log_level];
     destruct (String.eqb_spec k "temp_threshold"); [contradiction|reflexivity]|].
  destruct (String.eqb_spec key "check_interval") as [E|E2];
    [subst; eexists; split; [reflexivity|]; split; [reflexivity|];
     intros k Hk; unfold field; cbn [temp_threshold check_interval grace_period
                                       trex_process_names log_level];
     destruct (String.eqb_spec k "check_interval");
       [contradiction|reflexivity]|].
  destruct (String.eqb_spec key "grace_period") as [E|E3];
    [subst; eexists; split; [reflexivity|]; split; [reflexivity|];
     intros k Hk; unfold field; cbn [temp_threshold check_interval grace_period
                                       trex_process_names log_level];
     destruct (String.eqb_spec k "grace_period");
       [contradiction|reflexivity]|].
  destruct (String.eqb_spec key "trex_process_names") as [E|E4];
    [subst; eexists; split; [reflexivity|]; split; [reflexivity|];
     intros k Hk; unfold field; cbn [temp_threshold check_interval grace_period
                                       trex_process_names log_level];
     destruct (String.eqb_spec k "trex_process_names");
       [contradiction|reflexivity]|].
  destruct (String.eqb_spec key "log_level") as [E|E5];
    [subst; eexists; split; [reflexivity|]; split; [reflexivity|];
     intros k Hk; unfold field; cbn [temp_threshold check_interval grace_period
                                       trex_process_names log_level];
     destruct (String.eqb_spec k "log_level");
       [contradiction|reflexivity]|].
  discriminate H.
Qed.

Lemma lookup_absent (key : string) (members : list (string * json)) :
  ~ In key (map fst members) -> lookup key members = None.
Proof.
  induction members as [|[k v] rest IH]; intro H; [reflexivity|].
  cbn [lookup]. destruct (String.eqb_spec k key) as [E|E].
  - exfalso. apply H. left. exact E.
  - apply IH. intro Hin. apply H. right. exact Hin.
Qed.

Lemma set_fields_reads (members : list (string * json)) (c : Config) :
  NoDup (map fst members) ->
  forallb (fun kv => is_field (fst kv)) members = true ->
  exists c', set_fields c members = Ok c'
             /\ forall key, field c' key = match lookup key members with
                                           | Some v => Some v
                                           | None => field c key
                                           end.
Proof.
  revert c; induction members as [|[k v] rest IH]; intros c Hnd Hf.
  - exists c. split; reflexivity.
  - cbn [map fst] in Hnd. inversion Hnd as [|x xs Hnot Hrest]; subst.
    cbn [forallb fst] in Hf. apply andb_true_iff in Hf as [Hk Hr].
    destruct (set_field_sets c k v Hk) as (c1 & E1 & Fk & Fo).
    destruct (IH c1 Hrest Hr) as (c' & E' & F').
    exists c'. cbn [set_fields]. rewrite E1. split; [exact E'|].
    intro key. rewrite F'. cbn [lookup].
    destruct (String.eqb_spec k key) as [E|E].
    + subst key. rewrite (lookup_absent k rest Hnot). exact Fk.
    + destruct (lookup key rest); [reflexivity|]. apply Fo. congruence.
Qed.

(** X17.  When the file holds a JSON object whose keys are distinct
    field names, loading succeeds silently, and every field of the
    result is the file's value for that key when the file has it (taken
    as it is, whatever its type) and the default otherwise. *)
Theorem load_config_takes_fields_from_file :
  forall (fs : filesystem) (config_file : string)
         (members : list (string * json)),
    files fs config_file = Some (Document (JObject members)) ->
    NoDup (map fst members) ->
    forallb (fun kv => is_field (fst kv)) members = true ->
    snd (load_config fs config_file) = []
    /\ forall key,
         field (fst (load_config fs config_file)) key
         = match lookup key members with
           | Some v => Some v
           | None => field Config_defaults key
           end.
Proof.
  intros fs config_file members Hfile Hnd Hf.
  destruct (set_fields_reads members Config_defaults Hnd Hf) as (c & E & F).
  unfold load_config. rewrite Hfile. cbn [Config_of]. rewrite E.
  split; [reflexivity|exact F].
Qed.

Lemma load_config_takes_fields_from_file_witness :
  field (fst (load_config partial_disk "gpu_watchdog_config.json")) "grace_period"
  = Some (JString "soon")
  /\ field (fst (load_config partial_disk "gpu_watchdog_config.json")) "temp_threshold"
     = Some (JFloat 85).
Proof.
  destruct (load_config_takes_fields_from_file partial_disk
              "gpu_watchdog_config.json"
              [("grace_period", JString "soon"); ("check_interval", JInt 5)])
    as [_ F].
  - reflexivity.
  - constructor; [intros [H|[]]; discriminate|].
    constructor; [intros []|constructor].
  - reflexivity.
  - split; rewrite F; reflexivity.
Defined.

(** X18.  [load_config] prints its two error lines exactly when the
    file exists and is malformed; a missing file gives the defaults
    without a word. *)
Theorem load_config_prints_iff_malformed :
  forall (fs : filesystem) (config_file : string),
    (snd (load_config fs config_file) <> []
     <-> exists f, files fs config_file = Some f /\ malformed f = true)
    /\ (snd (load_config fs config_file) <> [] ->
        exists e, snd (load_config fs config_file)
                  = [ErrorLoadingConfigLine e; UsingDefaultConfigurationLine]).
Proof.
  intros fs config_file. split.
  - destruct (files fs config_file) as [f|] eqn:E.
    + rewrite <- (load_config_reports_error_iff_malformed fs config_file f E).
      split; [intro H; exists f; split; [reflexivity|exact H]|].
      intros (f' & Ef & Hm). injection Ef as <-. exact Hm.
    + unfold load_config. rewrite E. cbn [snd].
      split; [intro H; contradiction H; reflexivity|].
      intros (f & Ef & _). discriminate.
  - unfold load_config. destruct (files fs config_file) as [f|];
      [|intro H; contradiction H; reflexivity].
    destruct (match f with
              | Unreadable => Raise OSError
              | NotJson => Raise ValueError
              | Document config_data => Config_of config_data
              end) as [c|e].
    + intro H. contradiction H. reflexivity.
    + intros _. exists e. reflexivity.
Qed.

(** X19.  [save_default_config] leaves every other file, and what
    writing would come to, as they were.  When all goes well the file
    holds the default document whatever it held before.  When [open]
    fails the disk is unchanged and an error is printed.  When the dump
    fails after [open] has emptied the file, an error is printed and the
    file is left a text that is not JSON, so that loading it falls back
    to the defaults with the two error lines.  Saving a second time
    changes nothing more. *)
Theorem save_default_config_touches_one_file :
  forall (fs : filesystem) (config_file : string),
    let saved := save_default_config fs config_file in
    (forall other, other <> config_file ->
                   files (fst saved) other = files fs other)
    /\ (forall p, writes (fst saved) p = writes fs p)
    /\ match writes fs config_file with
       | Written =>
           files (fst saved) config_file = Some (Document default_config)
           /\ snd saved = [DefaultConfigSavedLine config_file]
       | OpenFails =>
           fst saved = fs
           /\ snd saved = [ErrorSavingConfigLine OSError]
       | DumpFails =>
           files (fst saved) config_file = Some NotJson
           /\ snd saved = [ErrorSavingConfigLine OSError]
           /\ load_config (fst saved) config_file
              = (Config_defaults,
                 [ErrorLoadingConfigLine ValueError;
                  UsingDefaultConfigurationLine])
       end
    /\ (forall p, files (fst (save_default_config (fst saved) config_file)) p
                  = files (fst saved) p).
Proof.
  intros fs config_file. cbv zeta. unfold save_default_config.
  assert (Same : forall f, files (write_file fs config_file f) config_file
                           = Some f).
  { intro f. unfold write_file. cbn [files]. rewrite String.eqb_refl.
    reflexivity. }
  assert (Others : forall f other, other <> config_file ->
                     files (write_file fs config_file f) other = files fs other).
  { intros f other Ho. unfold write_file. cbn [files].
    destruct (String.eqb_spec other config_file); [contradiction|reflexivity]. }
  assert (Twice : forall f p,
             files (write_file (write_file fs config_file f) config_file f) p
             = files (write_file fs config_file f) p).
  { intros f p. unfold write_file. cbn [files].
    destruct (p =? config_file)%string; reflexivity. }
  destruct (writes fs config_file) eqn:Hw; cbn [fst snd].
  - repeat split; auto.
    intro p. unfold write_file at 1. cbn [writes]. rewrite Hw. cbn [fst].
    apply Twice.
  - repeat split. intro p. rewrite Hw. reflexivity.
  - repeat split; auto.
    + unfold load_config. rewrite Same. reflexivity.
    + intro p. unfold write_file at 1. cbn [writes]. rewrite Hw. cbn [fst].
      apply Twice.
Qed.

(** X20.  The configuration [main] ends up with: a threshold given on
    the command line replaces the loaded one unless it is zero, a check
    interval likewise, and the other three fields are always the loaded
    ones; so with a missing or malformed file and no non-zero override
    the result is the defaults. *)
Theorem main_config_overrides :
  forall (fs : filesystem) (args : Args),
    let loaded := fst (load_config fs (args_config args)) in
    let config := main_config fs args in
    temp_threshold config
    = match args_temp_threshold args with
      | Some t => if Qeq_bool t 0 then temp_threshold loaded else JFloat t
      | None => temp_threshold loaded
      end
    /\ check_interval config
       = match args_check_interval args with
         | Some n => if n =? 0 then check_interval loaded else JInt n
         | None => check_interval loaded
         end
    /\ grace_period config = grace_period loaded
    /\ trex_process_names config = trex_process_names loaded
    /\ log_level config = log_level loaded.
Proof.
  intros fs args. cbv zeta. unfold main_config.
  destruct (args_temp_threshold args) as [t|];
    [destruct (Qeq_bool t 0)|];
    (destruct (args_check_interval args) as [n|];
     [destruct (n =? 0)|]);
    repeat split; reflexivity.
Qed.

(** ** The loop signals matched processes only *)

(** X21.  Whenever a turn of the loop sends a signal, a terminate or a
    kill to some pid, the reading of that turn was at or above the
    threshold, and the pid is that of a process which the enumeration of
    that same turn returned and which the matcher selects. *)
Theorem run_tick_signals_only_matched_processes :
  forall (W : Type) (env : Env W) (temp_threshold : Q)
         (check_interval grace_period : Z) (names : list string)
         (os : os_name) (w : W) (e : event) (p : Z),
    let sample := get_gpu_temperature env w in
    let found := find_trex_processes env names (final sample) in
    In e (trace (run_tick env temp_threshold check_interval grace_period
                   names os w)) ->
    signalled e = Some p ->
    (exists t, value sample = Some t /\ Qle_bool temp_threshold t = true)
    /\ exists proc,
         In proc (fst (env_process_iter env (final sample)))
         /\ In proc (value found)
         /\ pid proc = p
         /\ selected names proc = true.
Proof.
  intros W env thr ci g names os w e p sample found Hin Hsig.
  rewrite run_tick_is_run_tick_with, run_tick_with_trace in Hin.
  cbv zeta in Hin. fold sample in Hin. fold found in Hin.
  destruct (get_gpu_temperature_trace env w) as (lvl & m & Es).
  fold sample in Es. rewrite Es in Hin.
  assert (Hlogs : forall logs, forallb is_log logs = true -> ~ In e logs).
  { intros logs Hl He.
    pose proof (logs_forall (fun e' => signalled e' = None) logs
                  (fun _ _ => eq_refl) Hl) as F.
    rewrite Forall_forall in F. rewrite (F e He) in Hsig. discriminate. }
  destruct Hin as [<-|[<-|Hin]]; try discriminate.
  destruct (value sample) as [t|] eqn:Ev;
    [|destruct Hin as [<-|[<-|[]]]; discriminate].
  destruct Hin as [<-|Hin]; [discriminate|].
  destruct (Qle_bool thr t) eqn:Hot;
    [|destruct Hin as [<-|[]]; discriminate].
  split; [exists t; split; [reflexivity|exact Hot]|].
  destruct Hin as [<-|Hin]; [discriminate|].
  destruct (find_trex_processes_trace env names (final sample))
    as (logs & Ef & Hl).
  fold found in Ef. rewrite Ef in Hin.
  destruct Hin as [<-|Hin]; [discriminate|].
  apply in_app_or in Hin as [Hin|Hin]; [exfalso; exact (Hlogs logs Hl Hin)|].
  destruct (value found) as [|proc0 rest] eqn:Ef';
    [destruct Hin as [<-|[<-|[]]]; discriminate|].
  apply in_app_or in Hin as [Hin|Hin];
    [|destruct Hin as [<-|[<-|[]]]; discriminate].
  pose proof (graceful_shutdown_trex_events env os g (proc0 :: rest)
                (final found)) as F.
  rewrite Forall_forall in F. specialize (F e Hin).
  assert (Hp : In p (map pid (proc0 :: rest))).
  { destruct e; try discriminate; cbn [signalled] in Hsig;
      injection Hsig as <-; exact F. }
  apply in_map_iff in Hp as (proc & Epid & Hproc).
  exists proc. pose proof Hproc as Hlisted. rewrite <- Ef' in Hproc.
  assert (Hsel : In proc (filter (selected names)
                            (named_prefix (fst (env_process_iter env (final sample)))))).
  { unfold found in Hproc. rewrite find_trex_processes_value in Hproc.
    exact Hproc. }
  apply filter_In in Hsel as [Hpre Hsel].
  repeat split; try assumption.
  clear - Hpre. induction (fst (env_process_iter env (final sample)))
    as [|a l IH]; [contradiction|].
  cbn [named_prefix] in Hpre. destruct (info_name a); [|contradiction].
  destruct Hpre as [<-|Hpre]; [left; reflexivity|right; apply IH, Hpre].
Qed.

Lemma run_tick_signals_only_matched_processes_witness :
  let w := machine ["91"] [stubborn 1; idle_proc monitor_script] in
  In (Kill 1) (trace (run_tick sim_env 85 10 5 [] posix w))
  /\ exists proc,
       In proc (fst (env_process_iter sim_env
                       (final (get_gpu_temperature sim_env w))))
       /\ In proc (value (find_trex_processes sim_env []
                            (final (get_gpu_temperature sim_env w))))
       /\ pid proc = 1
       /\ selected [] proc = true.
Proof.
  cbv zeta.
  assert (H : In (Kill 1)
                 (trace (run_tick sim_env 85 10 5 [] posix
                           (machine ["91"] [stubborn 1; idle_proc monitor_script]))))
    by (vm_compute; repeat (first [left; reflexivity | right])).
  split; [exact H|].
  apply (run_tick_signals_only_matched_processes sim sim_env 85 10 5 []
           posix (machine ["91"] [stubborn 1; idle_proc monitor_script])
           (Kill 1) 1 H).
  reflexivity.
Defined.
